(** * beet_api: the node-session and request-orchestration layer

    A shallow embedding of [src/lib/api.ts] (the orchestration entry points)
    and of the route table of the application (the guards in front of them),
    with theorems about the order of the build steps, the session life
    cycle, the chunked object fetch and the validation of the chain
    parameter.

    Every entry point of [api.ts] has the shape

      new Promise(async (resolve, reject) => { ... })

    The embedding runs the body of the executor in a small monad that
    records the calls made to the outside world in a trace, keeps the
    settlement of the promise (the first [resolve] or [reject] wins, later
    ones do nothing) and knows three ways of leaving a block: falling
    through, [return], and an exception.  The outside world (node
    connection, database API, transaction builder, HTTP) is an explicit
    environment that fixes the answer of every call. *)

From Stdlib Require Import List String ZArith Lia Bool Arith DecimalString.
Import ListNotations.
Open Scope string_scope.
Open Scope list_scope.
Open Scope nat_scope.

Set Implicit Arguments.
Set Warnings "-register-all".

(** ** Values *)

(** Decoded JSON, the only data the gateway moves around. *)
Inductive json : Type :=
| JNull
| JBool (b : bool)
| JNum (n : Z)
| JStr (s : string)
| JArr (items : list json)
| JObj (fields : list (string * json)).

(** [new Error(message)]. *)
Inductive Error : Type :=
| mkError (message : string).

Definition message (e : Error) : string :=
  match e with mkError m => m end.

(** One entry of [chains[chain].nodeList] in [src/config/chains]. *)
Record Node : Type := mkNode { url : string }.

(** The Elysia instance handed around as [app]; its store holds the current
    order of the nodes of both chains (see [.state(...)] where the routes are
    set up). *)
Record App : Type := mkApp {
  bitshares_nodes : list Node;
  bitshares_testnet_nodes : list Node
}.

(** Calls on the [TransactionBuilder]. *)
Inductive TbCall : Type :=
| add_type_operation (opType : string) (operation : json)
| update_head_block
| set_required_fees
| set_expire_seconds (seconds : Z)
| finalize.

(** A [TransactionBuilder] is a mutable object of the chain library; it is
    represented by the calls made on it so far that did not throw, in
    order.  (A call that returns a promise may still fail through it; only
    an awaiting caller sees that.) *)
Definition TransactionBuilder : Type := list TbCall.

(** The [payload] field of the request object built by [generateDeepLink]. *)
Record BeetPayload : Type := mkPayload {
  method : string;
  params0 : string;                 (* "signAndBroadcast" *)
  params1 : TransactionBuilder;     (* JSON.stringify(tr.toObject()) *)
  params2 : list json;              (* [] *)
  appName : string;
  chainTag : string;
  browser : string;
  origin : string
}.

Record BeetRequest : Type := mkRequest {
  type_ : string;
  id : string;
  payload : BeetPayload
}.

(** What a promise can be resolved with. *)
Inductive Value : Type :=
| VJson (j : json)
| VValid (v : Value)              (* validResult(v), from ./common *)
| VEncoded (r : BeetRequest).     (* encodeURIComponent(JSON.stringify(r)) *)

Inductive Settlement : Type :=
| Resolved (v : Value)
| Rejected (e : Error).

(** ** The outside world *)

(** Answer of [Apis.instance().db_api().exec(...)]: the call throws, or it
    returns nothing ([None]: null or undefined), or it returns an array of
    rows, some of which may be [JNull]. *)
Inductive RpcResult : Type :=
| Throws (e : Error)
| Returns (rows : option (list json)).

(** Answer of [fetch(url, ...)]. *)
Record Response : Type := mkResponse {
  ok : bool;
  status : string;
  statusText : string;
  body_json : Error + json   (* await history.json(): it rejects, or the document *)
}.

Inductive FetchResult : Type :=
| FetchThrows (e : Error)
| FetchReturns (r : Response).

Inductive Event : Type :=
| EConnect (node : string)        (* Apis.instance(node, true, ...).init_promise *)
| EClose                          (* Apis.close() *)
| EChangeURL (chain : string)     (* changeURL(chain, app) *)
| EExec (name : string) (args : list json)
| ETb (c : TbCall)
| EFetch (url : string)
| ELog (msg : string).

Record Env : Type := mkEnv {
  (* src/config/chains: the static node list of a chain, if configured *)
  chains : string -> option (list Node);
  (* getCurrentNode(chain, app), from ./states *)
  getCurrentNode : string -> App -> string;
  (* init_promise of a connection to a node: None when it resolves *)
  connect : string -> option Error;
  (* whether Apis.instance().db_api() is there *)
  has_db_api : bool;
  (* the n-th exec sent by the running call, by method and arguments *)
  db_exec : nat -> string -> list json -> RpcResult;
  (* a builder call on a draft that already took the given calls: None
     unless the call throws or, where the caller awaits it, rejects *)
  tb_call : TransactionBuilder -> TbCall -> option Error;
  uuidv4 : string;
  (* encodeURIComponent(JSON.stringify(request)): None unless it throws *)
  encode_error : BeetRequest -> option Error;
  fetch : string -> FetchResult;
  (* the promise tr.finalize(Apis) returns, for the draft it is called on:
     None unless it rejects *)
  finalize_promise : TransactionBuilder -> option Error;
  (* 0 < v, as JavaScript compares a decoded value with a number *)
  js_positive : json -> bool
}.

(** ** The executor monad *)

Record PState : Type := mkState {
  trace : list Event;
  settled : option Settlement;
  issued : nat;
  (* rejections of promises nobody awaits or catches *)
  unhandled : list Error
}.

Definition start : PState := mkState [] None 0 [].

(** How a block is left: it falls through with a value, returns, throws,
    or never gets any further. *)
Inductive Ctl (A : Type) : Type :=
| Next (a : A)
| Return_
| Throw (e : Error)
| Hang.

Arguments Return_ {A}.
Arguments Throw {A} e.
Arguments Hang {A}.

Definition M (A : Type) : Type := PState -> PState * Ctl A.

Definition ret {A} (a : A) : M A := fun s => (s, Next a).

Definition bind {A B} (m : M A) (k : A -> M B) : M B :=
  fun s =>
    match m s with
    | (s', Next a) => k a s'
    | (s', Return_) => (s', Return_)
    | (s', Throw e) => (s', Throw e)
    | (s', Hang) => (s', Hang)
    end.

Declare Scope exec_scope.
Delimit Scope exec_scope with exec.
Notation "x <- m ;; k" := (bind m (fun x => k))
  (at level 61, m at next level, right associativity) : exec_scope.
Notation "m ;; k" := (bind m (fun _ => k))
  (at level 61, right associativity) : exec_scope.
Open Scope exec_scope.

(** [return;] *)
Definition return_ {A} : M A := fun s => (s, Return_).

(** [throw e] *)
Definition throw {A} (e : Error) : M A := fun s => (s, Throw e).

(** A loop that never ends. *)
Definition hang {A} : M A := fun s => (s, Hang).

(** [try { m } catch (error) { h error }] *)
Definition try_catch {A} (m : M A) (h : Error -> M A) : M A :=
  fun s =>
    match m s with
    | (s', Throw e) => h e s'
    | r => r
    end.

Definition emit (e : Event) : M unit :=
  fun s =>
    (mkState (trace s ++ [e]) (settled s) (issued s) (unhandled s), Next tt).

Definition settle (o : Settlement) : M unit :=
  fun s =>
    match settled s with
    | None => (mkState (trace s) (Some o) (issued s) (unhandled s), Next tt)
    | Some _ => (s, Next tt)
    end.

(** A promise that is neither awaited nor given a handler: when it
    rejects, the rejection stays unhandled. *)
Definition drop_promise (p : option Error) : M unit :=
  fun s =>
    (mkState (trace s) (settled s) (issued s)
       (unhandled s ++ match p with Some e => [e] | None => [] end),
     Next tt).

Definition resolve (v : Value) : M unit := settle (Resolved v).
Definition reject (e : Error) : M unit := settle (Rejected e).

(** [console.log(error)] and [console.error(error)]. *)
Definition log (e : Error) : M unit := emit (ELog (message e)).
Definition log_text (s : string) : M unit := emit (ELog s).

(** What the caller of an entry point can observe once the executor is
    done: the calls that went out and how the promise settled ([None]: it
    never settles). *)
Record Outcome : Type := mkOutcome {
  calls : list Event;
  result : option Settlement
}.

Definition promise (body : M unit) : Outcome :=
  let s := fst (body start) in mkOutcome (trace s) (settled s).

(** The rejections the run of an executor left unhandled. *)
Definition unhandled_rejections (body : M unit) : list Error :=
  unhandled (fst (body start)).

(** ** Chunking *)

(** [arr.slice(b, e)] for [0 <= b <= e]. *)
Definition slice {A} (arr : list A) (b e : nat) : list A :=
  firstn (e - b) (skipn b arr).

(** The loop of [_sliceIntoChunks], [i] and [chunks] being its variables.
    The first argument bounds the number of rounds; [None] when the loop
    has not left through its condition within them. *)
Fixpoint chunk_loop {A} (rounds : nat) (arr : list A) (size i : nat)
    (chunks : list (list A)) : option (list (list A)) :=
  match rounds with
  | O => if i <? List.length arr then None else Some chunks
  | S rounds' =>
      if i <? List.length arr
      then chunk_loop rounds' arr size (i + size)
             (chunks ++ [slice arr i (i + size)])
      else Some chunks
  end.

(** [_sliceIntoChunks(arr, size)] on an array.  With a positive [size], [i]
    grows each round and [length arr] rounds are enough (see
    [sliceIntoChunks_returns]); with [size] 0 and a non-empty array the
    loop never ends, whatever the number of rounds (see
    [chunk_loop_never_ends]), which is [None]. *)
Definition _sliceIntoChunks {A} (arr : list A) (size : nat)
  : option (list (list A)) :=
  chunk_loop (List.length arr) arr size 0 [].

(** The chunks the loop has collected after at most [rounds] rounds. *)
Fixpoint chunk_list {A} (rounds : nat) (arr : list A) (size i : nat)
    (chunks : list (list A)) : list (list A) :=
  match rounds with
  | O => chunks
  | S rounds' =>
      if i <? List.length arr
      then chunk_list rounds' arr size (i + size)
             (chunks ++ [slice arr i (i + size)])
      else chunks
  end.

(** The chunks of an array, for a positive size. *)
Definition chunks_of {A} (arr : list A) (size : nat) : list (list A) :=
  chunk_list (List.length arr) arr size 0 [].

(** ** The entry points of [api.ts] *)

Definition not_null (x : json) : bool :=
  match x with JNull => false | _ => true end.

(** [x && x.length] for an answer of the database API. *)
Definition has_length (x : option (list json)) : bool :=
  match x with
  | Some (_ :: _) => true
  | _ => false
  end.

(** [.then(results => { if (results && results.length) return results; })] *)
Definition only_if_filled (x : option (list json)) : option (list json) :=
  if has_length x then x else None.

(** [chain === 'bitshares' ? a : b] *)
Definition if_bitshares {A} (chain : string) (a b : A) : A :=
  if String.eqb chain "bitshares" then a else b.

(** The value of a key of a parsed object: the last binding wins. *)
Fixpoint field (key : string) (fields : list (string * json)) : option json :=
  match fields with
  | [] => None
  | (k, v) :: rest =>
      match field key rest with
      | Some w => Some w
      | None => if String.eqb k key then Some v else None
      end
  end.

Section EntryPoints.

Variable env : Env.

Definition init_promise (node : string) : M unit :=
  emit (EConnect node) ;;
  match connect env node with
  | None => ret tt
  | Some error => throw error
  end.

Definition Apis_close : M unit := emit EClose.

Definition changeURL (chain : string) : M unit := emit (EChangeURL chain).

(** [await Apis.instance().db_api().exec(name, args)]: where the node has
    no database API, [db_api()] is undefined and reading [exec] from it
    throws before anything is sent. *)
Definition exec (name : string) (args : list json) : M (option (list json)) :=
  fun s =>
    if has_db_api env then
      let s' := mkState (trace s ++ [EExec name args]) (settled s)
                  (S (issued s)) (unhandled s) in
      match db_exec env (issued s) name args with
      | Throws error => (s', Throw error)
      | Returns rows => (s', Next rows)
      end
    else (s, Throw (mkError "TypeError")).

(** One call on the draft [tr], awaited where it returns a promise; the
    draft it leaves behind. *)
Definition tb (tr : TransactionBuilder) (c : TbCall) : M TransactionBuilder :=
  emit (ETb c) ;;
  match tb_call env tr c with
  | None => ret (tr ++ [c])
  | Some error => throw error
  end.

(** [tr.finalize(Apis)] as the code has it, without [await]: a throw of the
    call itself reaches the enclosing [try], the promise the call returns
    is dropped. *)
Definition tb_finalize (tr : TransactionBuilder) : M TransactionBuilder :=
  tr' <- tb tr finalize ;;
  drop_promise (finalize_promise env tr) ;;
  ret tr'.

(** [chains[chain].nodeList[0].url]; a missing chain or an empty list makes
    the property access throw. *)
Definition first_node (chain : string) : M string :=
  match chains env chain with
  | Some (n :: _) => ret (url n)
  | _ => throw (mkError "TypeError")
  end.

(** *** generateDeepLink *)

(** [for (i ...) tr.add_type_operation(opType, operations[i])] *)
Fixpoint add_operations (opType : string) (operations : list json)
    (tr : TransactionBuilder) : M TransactionBuilder :=
  match operations with
  | [] => ret tr
  | operation :: rest =>
      tr' <- tb tr (add_type_operation opType operation) ;;
      add_operations opType rest tr'
  end.

Definition deeplink_request (chain : string) (tr : TransactionBuilder)
  : BeetRequest :=
  mkRequest "api" (uuidv4 env)
    (mkPayload "injectedCall" "signAndBroadcast" tr []
       "Static Bitshares Astro web app"
       (if_bitshares chain "BTS" "TEST")
       "web browser" "localhost").

Definition generateDeepLink (chain opType : string) (operations : list json)
    (app : App) : M unit :=
  let node := getCurrentNode env chain app in
  try_catch (init_promise node)
    (fun error => log error ;; changeURL chain ;; reject error ;; return_) ;;
  tr <- add_operations opType operations [] ;;
  tr <- try_catch (tb tr update_head_block)
    (fun error => log error ;; Apis_close ;; reject error ;; return_) ;;
  tr <- try_catch (tb tr set_required_fees)
    (fun error => log error ;; Apis_close ;; reject error ;; return_) ;;
  tr <- try_catch (tb tr (set_expire_seconds 7200))
    (fun error => log error ;; Apis_close ;; reject error ;; return_) ;;
  tr <- try_catch (tb_finalize tr)
    (fun error => log error ;; Apis_close ;; reject error ;; return_) ;;
  let request := deeplink_request chain tr in
  Apis_close ;;
  encodedPayload <- try_catch
    (match encode_error env request with
     | None => ret (VEncoded request)
     | Some error => throw error
     end)
    (fun error => log error ;; reject error ;; return_) ;;
  resolve encodedPayload.

(** *** getObjects *)

(** [_sliceIntoChunks(object_ids, 50)] on whatever the caller passed (the
    route hands over the parsed body as it is): [arr.length] throws on
    null and is undefined on a boolean or a number, a string is cut like
    an array, and an object counts as long as its [length] key says, but
    has no [slice] to call. *)
Definition chunks_of_input (object_ids : json) (size : nat) : M (list json) :=
  match object_ids with
  | JNull => throw (mkError "TypeError")
  | JBool _ => ret []
  | JNum _ => ret []
  | JStr s =>
      match _sliceIntoChunks (list_ascii_of_string s) size with
      | Some chunks =>
          ret (map (fun chunk => JStr (string_of_list_ascii chunk)) chunks)
      | None => hang
      end
  | JArr items =>
      match _sliceIntoChunks items size with
      | Some chunks => ret (map JArr chunks)
      | None => hang
      end
  | JObj fields =>
      match field "length" fields with
      | Some n =>
          if js_positive env n then throw (mkError "TypeError") else ret []
      | None => ret []
      end
  end.

(** The body of the loop over [chunksOfInputs]; [retrievedObjects] is the
    variable the loop assigns. *)
Fixpoint for_chunks (chunksOfInputs : list json)
    (retrievedObjects : list json) : M (list json) :=
  match chunksOfInputs with
  | [] => ret retrievedObjects
  | currentChunk :: rest =>
      got <- try_catch
        (got_objects <- exec "get_objects" [currentChunk; JBool false] ;;
         ret (Some got_objects))
        (fun error => log error ;; ret None) ;;
      match got with
      | None => for_chunks rest retrievedObjects   (* continue *)
      | Some got_objects =>
          if has_length got_objects
          then for_chunks rest
                 (retrievedObjects
                    ++ filter not_null
                         (match got_objects with Some l => l | None => [] end))
          else for_chunks rest retrievedObjects
      end
  end.

Definition getObjects (chain : string) (object_ids : json)
    (app : option App) : M unit :=
  node <- match app with
          | Some a => ret (getCurrentNode env chain a)
          | None => first_node chain
          end ;;
  try_catch (init_promise node)
    (fun error =>
       log error ;; Apis_close ;;
       match app with Some _ => changeURL chain | None => ret tt end ;;
       reject error ;; return_) ;;
  chunksOfInputs <- chunks_of_input object_ids 50 ;;
  retrievedObjects <- for_chunks chunksOfInputs [] ;;
  Apis_close ;;
  match retrievedObjects with
  | _ :: _ =>
      resolve (match app with
               | Some _ => VValid (VJson (JArr retrievedObjects))
               | None => VJson (JArr retrievedObjects)
               end) ;;
      return_
  | [] => reject (mkError "Couldn't retrieve objects")
  end.

(** *** Single queries *)

(** The guard shared by the queries: no database API on the node. *)
Definition no_db_api (rotate : bool) (chain : string) : M unit :=
  if has_db_api env then ret tt
  else
    log_text "no db_api" ;; Apis_close ;;
    (if rotate then changeURL chain else ret tt) ;;
    reject (mkError "no db_api") ;; return_.

Definition getBlockedAccounts (chain : string) (app : App) : M unit :=
  let node := getCurrentNode env chain app in
  try_catch (init_promise node)
    (fun error => log error ;; changeURL chain ;; reject error ;; return_) ;;
  no_db_api false chain ;;
  object <- try_catch
    (exec "get_accounts" [JArr [JStr "committee-blacklist-manager"]])
    (fun error => log error ;; Apis_close ;; reject error ;; ret None) ;;
  Apis_close ;;
  match object with
  | None => reject (mkError "Committee account details not found") ;; return_
  | Some rows => resolve (VValid (VJson (JArr rows)))
  end.

Definition accountSearch (chain search_string : string) (app : App) : M unit :=
  let node := getCurrentNode env chain app in
  try_catch (init_promise node)
    (fun error => log error ;; changeURL chain ;; reject error ;; return_) ;;
  no_db_api true chain ;;
  object <- try_catch
    (exec "get_accounts" [JArr [JStr search_string]])
    (fun error => log error ;; Apis_close ;; reject error ;; ret None) ;;
  match object with
  | Some (first :: _) =>
      Apis_close ;;
      resolve (VValid (VJson first))
  | _ => reject (mkError "Couldn't retrieve account") ;; return_
  end.

Definition getFullAccounts (chain accountID : string) (app : App) : M unit :=
  let node := getCurrentNode env chain app in
  try_catch (init_promise node)
    (fun error => log error ;; changeURL chain ;; reject error ;; return_) ;;
  no_db_api true chain ;;
  object <- try_catch
    (results <- exec "get_full_accounts"
                  [JArr [JStr accountID]; JBool false] ;;
     ret (only_if_filled results))
    (fun error => log error ;; Apis_close ;; reject error ;; ret None) ;;
  Apis_close ;;
  match object with
  | None => reject (mkError "Committee account details not found") ;; return_
  | Some rows => resolve (VValid (VJson (JArr rows)))
  end.

Definition getAccountBalances (chain accountID : string) (app : App)
  : M unit :=
  let node := getCurrentNode env chain app in
  try_catch (init_promise node)
    (fun error => log error ;; changeURL chain ;; reject error ;; return_) ;;
  no_db_api true chain ;;
  balances <- try_catch
    (results <- exec "get_account_balances" [JStr accountID; JArr []] ;;
     ret (only_if_filled results))
    (fun error => log error ;; Apis_close ;; reject error ;; ret None) ;;
  Apis_close ;;
  match balances with
  | None => reject (mkError "Account balances not found") ;; return_
  | Some rows => resolve (VValid (VJson (JArr rows)))
  end.

Definition getLimitOrders (chain accountID : string) (limit : Z) (app : App)
  : M unit :=
  let node := getCurrentNode env chain app in
  try_catch (init_promise node)
    (fun error => log error ;; changeURL chain ;; reject error ;; return_) ;;
  no_db_api true chain ;;
  limitOrders <- try_catch
    (results <- exec "get_limit_orders_by_account"
                  [JStr accountID; JNum limit] ;;
     ret (only_if_filled results))
    (fun error => log error ;; Apis_close ;; reject error ;; ret None) ;;
  Apis_close ;;
  match limitOrders with
  | None => reject (mkError "Account balances not found") ;; return_
  | Some rows => resolve (VValid (VJson (JArr rows)))
  end.

(** *** getPortfolio *)

Definition portfolio (balances limitOrders : list json) : json :=
  JObj [("balances", JArr balances); ("limitOrders", JArr limitOrders)].

Definition getPortfolio (chain accountID : string) (app : App) : M unit :=
  let node := getCurrentNode env chain app in
  try_catch (init_promise node)
    (fun error => log error ;; changeURL chain ;; reject error ;; return_) ;;
  no_db_api true chain ;;
  limitOrders <- try_catch
    (exec "get_limit_orders_by_account" [JStr accountID; JNum 100])
    (fun error => log error ;; Apis_close ;; reject error ;; ret None) ;;
  balances <- try_catch
    (exec "get_account_balances" [JStr accountID; JArr []])
    (fun error => log error ;; Apis_close ;; reject error ;; ret None) ;;
  Apis_close ;;
  match balances with
  | None => reject (mkError "Account balances not found") ;; return_
  | Some balances =>
      match limitOrders with
      | None => reject (mkError "Account limit orders not found") ;; return_
      | Some limitOrders =>
          resolve (VValid (VJson (portfolio balances limitOrders)))
      end
  end.

End EntryPoints.

(** *** getAccountHistory *)

(** The decimal digits of an integer (used to name sample objects). *)
Definition show (n : Z) : string := NilZero.string_of_int (Z.to_int n).

(** A JavaScript number as far as a template string needs it: the text
    that [`${n}`] gives for it. *)
Record Number : Type := number { printed : string }.

(** [x ?? d] *)
Definition or_else {A} (x : option A) (d : A) : A :=
  match x with Some a => a | None => d end.

(** JavaScript truthiness of a decoded JSON value. *)
Definition truthy (j : json) : bool :=
  match j with
  | JNull => false
  | JBool b => b
  | JNum n => negb (Z.eqb n 0)
  | JStr s => negb (String.eqb s "")
  | JArr _ => true
  | JObj _ => true
  end.

Section History.

Variable env : Env.

Definition history_url (chain accountID : string) (from size : option Number)
    (from_date to_date sort_by type agg_field : option string) : string :=
  ("https://" ++ if_bitshares chain "api" "api.testnet"
     ++ ".bitshares.ws/openexplorer/es/account_history"
     ++ "?account_id=" ++ accountID
     ++ "&from_=" ++ printed (or_else from (number "0"))
     ++ "&size=" ++ printed (or_else size (number "100"))
     ++ "&from_date=" ++ or_else from_date "2015-10-10"
     ++ "&to_date=" ++ or_else to_date "now"
     ++ "&sort_by=" ++ or_else sort_by "-operation_id_num"
     ++ "&type=" ++ or_else type "data"
     ++ "&agg_field=" ++ or_else agg_field "operation_type")%string.

Definition http_get (url : string) : M Response :=
  emit (EFetch url) ;;
  match fetch env url with
  | FetchThrows error => throw error
  | FetchReturns r => ret r
  end.

Definition getAccountHistory (chain accountID : string)
    (from size : option Number)
    (from_date to_date sort_by type agg_field : option string) : M unit :=
  let url := history_url chain accountID from size from_date to_date
               sort_by type agg_field in
  history <- try_catch
    (r <- http_get url ;; ret (Some r))
    (fun error => log error ;; reject error ;; ret None) ;;
  match history with
  | None =>
      log (mkError "Couldn't fetch account history") ;; return_
  | Some history =>
      if negb (ok history)
      then log (mkError (status history ++ " " ++ statusText history)%string) ;;
           return_
      else
        match body_json history with
        | inl error => throw error            (* history.json() rejects *)
        | inr historyJSON =>
            if truthy historyJSON
            then resolve (VValid (VJson historyJSON))
            else reject (mkError "Account history not found") ;; return_
        end
  end.

End History.

(** ** The route table *)

(** A request body as the handler sees it. *)
Inductive Body : Type :=
| BString (s : string)
| BObject (fields : list (string * json)).

(** The path parameters a handler destructures, and the body. *)
Record Request : Type := mkReq {
  chain : option string;
  opType : option string;
  id_ : option string;
  quote : option string;
  base : option string;
  searchInput : option string;
  accountID : option string;
  account : option string;
  body : option Body
}.

(** The routes that take a [:chain] parameter. *)
Inductive Route : Type :=
| StateCurrentNodes
| ApiDeeplink
| ApiBlockedAccounts
| ApiFullAccount
| ApiOrderBook
| ApiLimitOrders
| ApiAccountLookup
| ApiGetAccountBalances
| ApiGetAccountLimitOrders
| ApiGetAccountHistory
| ApiGetPortfolio
| ApiGetObjects
| ApiGetMarketHistory
| ApiGetFeaturedMarkets
| ApiFetchCreditDeals
| CacheAllAssets
| CacheOffers
| CachePools
| CacheBitassets
| CachePool
| CacheDynamic
| CacheAsset
| CacheAssets
| CacheFeeSchedule
| CacheMarketSearch.

(** What a handler does first: it throws, or it hands over to a function of
    [lib/api], [lib/cache] or to the store, with these arguments ([app]
    left out). *)
Inductive Handled : Type :=
| Refused (e : Error)
| Passed (callee : string) (args : list json).

(** [!x] for a path parameter. *)
Definition missing (x : option string) : bool :=
  match x with
  | None => true
  | Some s => String.eqb s ""
  end.

(** [x !== lit] *)
Definition isnt (x : option string) (lit : string) : bool :=
  match x with
  | None => true
  | Some s => negb (String.eqb s lit)
  end.

(** [x.includes(sub)] *)
Definition includes (x : option string) (sub : string) : bool :=
  match x with
  | Some s => match index 0 sub s with Some _ => true | None => false end
  | None => false
  end.

Definition arg (x : option string) : json :=
  match x with Some s => JStr s | None => JNull end.

Definition no_body (b : option Body) : bool :=
  match b with
  | None => true
  | Some (BString s) => String.eqb s ""
  | Some (BObject _) => false
  end.

(** [Object.keys(body).length === 0] *)
Definition no_keys (b : option Body) : bool :=
  match b with
  | Some (BObject (_ :: _)) => false
  | Some (BString s) => String.eqb s ""
  | _ => true
  end.

Definition invalid_chain : Handled := Refused (mkError "Invalid chain").
Definition missing_fields : Handled :=
  Refused (mkError "Missing required fields").

Section Routes.

(** [JSON.parse] on a string: [None] when it throws a SyntaxError. *)
Variable JSON_parse : string -> option json.

Definition parse (b : option Body) : Error + json :=
  match b with
  | Some (BString s) =>
      match JSON_parse s with
      | Some j => inr j
      | None => inl (mkError "SyntaxError")
      end
  | _ => inl (mkError "SyntaxError")
  end.

(** The usual pair of guards in front of an API call. *)
Definition guarded (fields_missing : bool) (chain : option string)
    (k : Handled) : Handled :=
  if fields_missing then missing_fields
  else if isnt chain "bitshares" && isnt chain "bitshares_testnet"
       then invalid_chain
       else k.

(** The cache routes that fold the chain test into the field test. *)
Definition guarded_fields (chain : option string) (other_missing : bool)
    (k : Handled) : Handled :=
  if missing chain
     || (isnt chain "bitshares" && isnt chain "bitshares_testnet")
     || other_missing
  then missing_fields
  else k.

Definition handler (r : Route) (req : Request) : Handled :=
  let chain := chain req in
  match r with
  | StateCurrentNodes =>
      if missing chain
         || (negb (missing chain) && isnt chain "bitshares"
               && isnt chain "bitshares_testnet")
      then invalid_chain
      else Passed "store" [arg chain]
  | ApiDeeplink =>
      if no_body (body req) then missing_fields
      else
        match parse (body req) with
        | inl e => Refused e
        | inr parsed =>
            guarded (negb (truthy parsed) || missing chain
                       || missing (opType req)) chain
              (Passed "generateDeepLink" [arg chain; arg (opType req); parsed])
        end
  | ApiBlockedAccounts =>
      if isnt chain "bitshares" then invalid_chain
      else Passed "getBlockedAccounts" [arg chain]
  | ApiFullAccount =>
      guarded (missing chain || missing (id_ req)) chain
        (Passed "getFullAccounts" [arg chain; arg (id_ req)])
  | ApiOrderBook =>
      guarded (missing chain || missing (base req) || missing (quote req))
        chain
        (Passed "fetchOrderBook" [arg chain; arg (quote req); arg (base req)])
  | ApiLimitOrders =>
      guarded (missing chain || missing (base req) || missing (quote req))
        chain
        (Passed "fetchLimitOrders" [arg chain; arg (base req); arg (quote req)])
  | ApiAccountLookup =>
      guarded (missing chain || missing (searchInput req)) chain
        (Passed "accountSearch" [arg chain; arg (searchInput req)])
  | ApiGetAccountBalances =>
      guarded (missing chain || missing (id_ req)) chain
        (Passed "getAccountBalances" [arg chain; arg (id_ req)])
  | ApiGetAccountLimitOrders =>
      guarded (missing chain || missing (id_ req)) chain
        (Passed "getLimitOrders" [arg chain; arg (id_ req); JNum 100])
  | ApiGetAccountHistory =>
      guarded (missing chain || missing (id_ req)) chain
        (Passed "getAccountHistory" [arg chain; arg (id_ req)])
  | ApiGetPortfolio =>
      guarded (missing chain || missing (id_ req)) chain
        (Passed "getPortfolio" [arg chain; arg (id_ req)])
  | ApiGetObjects =>
      guarded (no_body (body req) || missing chain) chain
        (match parse (body req) with
         | inl e => Refused e
         | inr objects => Passed "getObjects" [arg chain; objects]
         end)
  | ApiGetMarketHistory =>
      if missing chain || missing (base req) || missing (quote req)
         || missing (accountID req)
      then missing_fields
      else if negb (includes (base req) "1.3.")
              || negb (includes (quote req) "1.3.")
      then Refused (mkError "Invalid asset IDs")
      else guarded false chain
             (Passed "getMarketTrades"
                [arg chain; arg (quote req); arg (base req);
                 arg (accountID req)])
  | ApiGetFeaturedMarkets =>
      guarded (missing chain) chain (Passed "fetchMarkets" [arg chain])
  | ApiFetchCreditDeals =>
      guarded (missing chain || missing (account req)) chain
        (Passed "fetchCreditDeals" [arg chain; arg (account req)])
  | CacheAllAssets =>
      guarded false chain (Passed "getAllAssets" [arg chain])
  | CacheOffers =>
      guarded false chain (Passed "getActiveOffers" [arg chain])
  | CachePools => Passed "getPools" [arg chain]
  | CacheBitassets => Passed "getMinBitassets" [arg chain]
  | CachePool =>
      guarded_fields chain (missing (id_ req))
        (Passed "getPool" [arg chain; arg (id_ req)])
  | CacheDynamic =>
      guarded_fields chain (missing (id_ req))
        (Passed "getDynamicData" [arg chain; arg (id_ req)])
  | CacheAsset =>
      guarded_fields chain (missing (id_ req))
        (Passed "getAsset" [arg chain; arg (id_ req)])
  | CacheAssets =>
      guarded (no_body (body req) || no_keys (body req) || missing chain)
        chain
        (match body req with
         | Some (BObject fields) =>
             Passed "getAsset" [arg chain; JArr (map snd fields)]
         | b =>
             match parse b with
             | inl e => Refused e
             | inr assetIDs => Passed "getAsset" [arg chain; assetIDs]
             end
         end)
  | CacheFeeSchedule =>
      guarded_fields chain false (Passed "getFeeSchedule" [arg chain])
  | CacheMarketSearch =>
      guarded_fields chain false (Passed "getMarketSearch" [arg chain])
  end.

End Routes.

(** ** Reading a trace *)

Definition is_close (e : Event) : bool :=
  match e with EClose => true | _ => false end.

(** How many times [Apis.close()] was called. *)
Definition closes (t : list Event) : nat := List.length (filter is_close t).

(** The database calls, in the order they were issued. *)
Definition execs (t : list Event) : list (string * list json) :=
  flat_map (fun e => match e with EExec n a => [(n, a)] | _ => [] end) t.

(** The calls on the transaction builder, in order. *)
Definition builder_calls (t : list Event) : list TbCall :=
  flat_map (fun e => match e with ETb c => [c] | _ => [] end) t.

(** The nodes a connection was opened to. *)
Definition connects (t : list Event) : list string :=
  flat_map (fun e => match e with EConnect n => [n] | _ => [] end) t.

(** The chains whose node order was rotated. *)
Definition rotations (t : list Event) : list string :=
  flat_map (fun e => match e with EChangeURL c => [c] | _ => [] end) t.

(** ** The batch fetch, chunk by chunk *)

(** The chunks [getObjects] works on; [None] when cutting its argument
    throws. *)
Definition input_chunks (env : Env) (object_ids : json) : option (list json) :=
  match object_ids with
  | JNull => None
  | JBool _ => Some []
  | JNum _ => Some []
  | JStr s =>
      Some (map (fun chunk => JStr (string_of_list_ascii chunk))
              (chunks_of (list_ascii_of_string s) 50))
  | JArr items => Some (map JArr (chunks_of items 50))
  | JObj fields =>
      match field "length" fields with
      | Some n => if js_positive env n then None else Some []
      | None => Some []
      end
  end.

(** The request [getObjects] sends for one chunk. *)
Definition get_objects_call (chunk : json) : string * list json :=
  ("get_objects", [chunk; JBool false]).

(** What the request for [chunk], the [n]-th if it is sent, adds to the
    merged result: the rows that are not null when the call answers,
    nothing when it throws or when there is no database API to call. *)
Definition chunk_rows (env : Env) (n : nat) (chunk : json) : list json :=
  if has_db_api env then
    match db_exec env n "get_objects" [chunk; JBool false] with
    | Returns (Some rows) => filter not_null rows
    | _ => []
    end
  else [].

Fixpoint merged (env : Env) (n : nat) (chunks : list json) : list json :=
  match chunks with
  | [] => []
  | c :: rest => chunk_rows env n c ++ merged env (S n) rest
  end.

(** What the request for [chunk] leaves in the trace: the call and, when
    it throws, the log of the error; without a database API only the log
    of the error of the property access. *)
Definition chunk_events (env : Env) (n : nat) (chunk : json) : list Event :=
  if has_db_api env then
    EExec "get_objects" [chunk; JBool false]
    :: match db_exec env n "get_objects" [chunk; JBool false] with
       | Throws e => [ELog (message e)]
       | Returns _ => []
       end
  else [ELog "TypeError"].

Fixpoint chunks_trace (env : Env) (n : nat) (chunks : list json)
  : list Event :=
  match chunks with
  | [] => []
  | c :: rest => chunk_events env n c ++ chunks_trace env (S n) rest
  end.

(** [app ? validResult(rows) : rows] *)
Definition objects_value (app : option App) (rows : list json) : Value :=
  match app with
  | Some _ => VValid (VJson (JArr rows))
  | None => VJson (JArr rows)
  end.

(** How [getObjects] settles on a merged result. *)
Definition objects_settlement (app : option App) (rows : list json)
  : Settlement :=
  match rows with
  | [] => Rejected (mkError "Couldn't retrieve objects")
  | _ :: _ => Resolved (objects_value app rows)
  end.

(** The sizes of the chunks cut from a list of [len] elements, by the same
    loop as [chunk_list]. *)
Fixpoint chunk_sizes (rounds len size i : nat) : list nat :=
  match rounds with
  | O => []
  | S rounds' =>
      if i <? len
      then Nat.min size (len - i) :: chunk_sizes rounds' len size (i + size)
      else []
  end.

(** ** The build steps, as the orchestrator is meant to run them *)

(** The steps in their fixed order: one [add_type_operation] per payload, in
    input order, then reference block, fees, expiration, finalization. *)
Definition build_steps (opType : string) (operations : list json)
  : list TbCall :=
  map (add_type_operation opType) operations
    ++ [update_head_block; set_required_fees; set_expire_seconds 7200;
        finalize].

(** Gated execution: each step runs only if the one before succeeded.  The
    result is the list of steps that were started and either the error of
    the step that failed or the draft all steps were applied to. *)
Fixpoint gated (env : Env) (steps : list TbCall) (tr : TransactionBuilder)
  : list TbCall * (Error + TransactionBuilder) :=
  match steps with
  | [] => ([], inr tr)
  | c :: rest =>
      match tb_call env tr c with
      | Some e => ([c], inl e)
      | None =>
          let (started, r) := gated env rest (tr ++ [c]) in (c :: started, r)
      end
  end.

(** ** The node an entry point connects to *)

(** The node [getObjects] picks: the current node of the app's store when
    [app] is given, else the first entry of the static list of the chain
    ([None] when that property access throws). *)
Definition endpoint (env : Env) (chain : string) (app : option App)
  : option string :=
  match app with
  | Some a => Some (getCurrentNode env chain a)
  | None =>
      match chains env chain with
      | Some (n :: _) => Some (url n)
      | _ => None
      end
  end.

(** ** Chain literals *)

Definition two_chains (c : option string) : Prop :=
  c = Some "bitshares" \/ c = Some "bitshares_testnet".

(** A route accepts exactly the two chain literals: any other value is
    refused, and each of the two gets through for some request. *)
Definition accepts_exactly_two_chains (JSON_parse : string -> option json)
    (r : Route) : Prop :=
  (forall req, ~ two_chains (chain req) ->
     exists e, handler JSON_parse r req = Refused e)
  /\ (forall c, two_chains (Some c) ->
        exists req callee args,
          chain req = Some c /\ handler JSON_parse r req = Passed callee args).

(** ** Every path of [generateDeepLink], spelled out *)

Definition last_steps : list TbCall :=
  [update_head_block; set_required_fees; set_expire_seconds 7200; finalize].

(** What [generateDeepLink] leaves behind once connected: a payload the
    builder refuses escapes the executor (the promise stays pending), a
    failing later step is logged, the session closed and the promise
    rejected, and only a finalized draft is wrapped and encoded. *)
Definition deeplink_outcome (env : Env) (chain opType : string)
    (operations : list json) (app : App) : Outcome :=
  let node := getCurrentNode env chain app in
  match gated env (map (add_type_operation opType) operations) [] with
  | (added, inl e) => mkOutcome (EConnect node :: map ETb added) None
  | (added, inr tr) =>
      match gated env last_steps tr with
      | (started, inl e) =>
          mkOutcome
            (EConnect node :: map ETb added ++ map ETb started
               ++ [ELog (message e); EClose])
            (Some (Rejected e))
      | (started, inr tr') =>
          let request := deeplink_request env chain tr' in
          match encode_error env request with
          | Some e =>
              mkOutcome
                (EConnect node :: map ETb added ++ map ETb started
                   ++ [EClose; ELog (message e)])
                (Some (Rejected e))
          | None =>
              mkOutcome
                (EConnect node :: map ETb added ++ map ETb started ++ [EClose])
                (Some (Resolved (VEncoded request)))
          end
      end
  end.

(** ** Sub-queries *)

(** A sub-query fails when its call throws or comes back with nothing. *)
Definition failed (r : RpcResult) : bool :=
  match r with
  | Throws _ => true
  | Returns None => true
  | Returns (Some _) => false
  end.

Definition limit_orders_call (accountID : string) : string * list json :=
  ("get_limit_orders_by_account", [JStr accountID; JNum 100]).

Definition balances_call (accountID : string) : string * list json :=
  ("get_account_balances", [JStr accountID; JArr []]).

(** ** Sample worlds *)

Definition sample_chains (chain : string) : option (list Node) :=
  if String.eqb chain "bitshares"
  then Some [mkNode "wss://node.xbts.io/ws"; mkNode "wss://api.bts.mobi/ws"]
  else if String.eqb chain "bitshares_testnet"
  then Some [mkNode "wss://testnet.xbts.io/ws"]
  else None.

Definition sample_app : App :=
  mkApp [mkNode "wss://api.bts.mobi/ws"; mkNode "wss://node.xbts.io/ws"]
        [mkNode "wss://testnet.xbts.io/ws"].

Definition sample_current_node (chain : string) (app : App) : string :=
  match if_bitshares chain (bitshares_nodes app) (bitshares_testnet_nodes app)
  with
  | n :: _ => url n
  | [] => ""
  end.

(** [0 < v] for the values that are numbers or booleans. *)
Definition sample_positive (v : json) : bool :=
  match v with
  | JNum n => Z.ltb 0 n
  | JBool b => b
  | _ => false
  end.

(** A world with the sample configuration where the builder and the
    encoder never fail. *)
Definition world (conn : string -> option Error)
    (db : nat -> string -> list json -> RpcResult)
    (http : string -> FetchResult) : Env :=
  mkEnv sample_chains sample_current_node conn true db (fun _ _ => None)
    "6b0f4c1e-0d3a-4f6e-9c55-2f1d8a7e4b90" (fun _ => None) http
    (fun _ => None) sample_positive.

Definition up : string -> option Error := fun _ => None.
Definition down : string -> option Error :=
  fun _ => Some (mkError "connect ECONNREFUSED").
Definition offline : string -> FetchResult :=
  fun _ => FetchThrows (mkError "fetch failed").

(** A node that knows every object except the one called "missing". *)
Definition sample_row (id : json) : json :=
  match id with
  | JStr s => if String.eqb s "missing" then JNull else JObj [("id", JStr s)]
  | _ => JNull
  end.

Definition sample_lookup (id : string) : json := sample_row (JStr id).

Definition objects_db (n : nat) (name : string) (args : list json)
  : RpcResult :=
  match args with
  | [JArr ids; JBool false] => Returns (Some (map sample_row ids))
  | _ => Returns None
  end.

(** The same node, timing out on the second request of a call. *)
Definition flaky_db (n : nat) (name : string) (args : list json)
  : RpcResult :=
  match n with
  | 1 => Throws (mkError "timeout")
  | _ => objects_db n name args
  end.

(** A node that has no rows for anything. *)
Definition empty_db (n : nat) (name : string) (args : list json)
  : RpcResult := Returns (Some []).

(** A node on which the first request of a call times out. *)
Definition first_fails_db (n : nat) (name : string) (args : list json)
  : RpcResult :=
  match n with
  | 0 => Throws (mkError "timeout")
  | _ => Returns (Some [JObj [("amount", JNum 5); ("asset_id", JStr "1.3.0")]])
  end.

(** A node with one open order and one balance for every account. *)
Definition account_db (n : nat) (name : string) (args : list json)
  : RpcResult :=
  if String.eqb name "get_account_balances"
  then Returns (Some [JObj [("amount", JNum 5); ("asset_id", JStr "1.3.0")]])
  else Returns (Some [JObj [("id", JStr "1.7.1")]]).

(** 120 object IDs, 1.2.0 to 1.2.119. *)
Definition ids120 : list string :=
  map (fun k => ("1.2." ++ show (Z.of_nat k))%string) (seq 0 120).

(** A history service answering 500. *)
Definition server_error : string -> FetchResult :=
  fun _ => FetchReturns
             (mkResponse false "500" "Internal Server Error" (inr JNull)).

(** A [JSON.parse] that only knows two documents. *)
Definition sample_parse (s : string) : option json :=
  if String.eqb s "[]" then Some (JArr [])
  else if String.eqb s "null" then Some JNull
  else None.

Definition swap_operation : json :=
  JObj [("account", JStr "1.2.1811495"); ("pool", JStr "1.19.0")].

(** A request that passes every field test of every route. *)
Definition full_request (c : string) (s : string) : Request :=
  mkReq (Some c) (Some "pool_exchange") (Some "1.2.100") (Some "1.3.0")
    (Some "1.3.1") (Some "committee-account") (Some "1.2.100")
    (Some "1.2.100") (Some (BString s)).

(** ** fetchOrderBook *)

(** The order book query.  The answer of the node is handed on as the
    database API gives it; a failing call is only logged, and the session
    is closed before the answer is looked at. *)
Definition fetchOrderBook (env : Env) (chain base quote : string) (app : App)
  : M unit :=
  let node := getCurrentNode env chain app in
  try_catch (init_promise env node)
    (fun error => log error ;; changeURL chain ;; reject error ;; return_) ;;
  orderBook <- try_catch
    (exec env "get_order_book" [JStr base; JStr quote; JNum 50])
    (fun error => log error ;; ret None) ;;
  try_catch Apis_close (fun error => log error) ;;
  match orderBook with
  | None => reject (mkError "Couldn't retrieve orderbook") ;; return_
  | Some rows => resolve (VValid (VJson (JArr rows)))
  end.

(** ** From a route to its entry point *)

(** The function a handler returns the promise of, applied to the arguments
    it passes, by position; [None] for the callees that are not part of
    [api.ts] as modelled here, or whose handler works on the result. *)
Definition entry (env : Env) (app : App) (callee : string) (args : list json)
  : option (M unit) :=
  match args with
  | [JStr a] =>
      if String.eqb callee "getBlockedAccounts"
      then Some (getBlockedAccounts env a app)
      else None
  | [JStr a; JStr b] =>
      if String.eqb callee "getFullAccounts"
      then Some (getFullAccounts env a b app)
      else if String.eqb callee "accountSearch"
      then Some (accountSearch env a b app)
      else if String.eqb callee "getAccountBalances"
      then Some (getAccountBalances env a b app)
      else if String.eqb callee "getAccountHistory"
      then Some (getAccountHistory env a b None None None None None None None)
      else if String.eqb callee "getPortfolio"
      then Some (getPortfolio env a b app)
      else None
  | [JStr a; JStr b; JNum n] =>
      if String.eqb callee "getLimitOrders"
      then Some (getLimitOrders env a b n app)
      else None
  | [JStr a; JStr b; JStr c] =>
      if String.eqb callee "fetchOrderBook"
      then Some (fetchOrderBook env a b c app)
      else None
  | _ => None
  end.

(** The routes whose handler returns the promise of its callee as it is. *)
Definition returns_promise (r : Route) : bool :=
  match r with
  | ApiBlockedAccounts | ApiFullAccount | ApiOrderBook | ApiAccountLookup
  | ApiGetAccountBalances | ApiGetAccountLimitOrders | ApiGetAccountHistory
  | ApiGetPortfolio => true
  | _ => false
  end.

(** A request served by such a route: what goes out and how the promise
    the handler returns settles; a handler that throws rejects before
    anything went out. *)
Definition serve (env : Env) (JSON_parse : string -> option json) (app : App)
    (r : Route) (req : Request) : option Outcome :=
  if returns_promise r then
    match handler JSON_parse r req with
    | Refused e => Some (mkOutcome [] (Some (Rejected e)))
    | Passed callee args =>
        match entry env app callee args with
        | Some body => Some (promise body)
        | None => None
        end
    end
  else None.

(** ** The pool list script *)

(** The script that refreshes the pool files:
    [fetch(url).then(res => res.json()).then(data => ...).catch(...)]. *)

Definition pools_url : string := "https://api.bitshares.ws/openexplorer/pools".

Inductive ScriptEvent : Type :=
| SFetch (url : string)
| SWrite (path : string) (content : json)   (* fs.writeFile(path, JSON.stringify(content, undefined, 4), ...) *)
| SLog (msg : string).

(** [x.key] for the keys the script reads (none of them is a property of
    strings, numbers or arrays): reading from undefined or null throws,
    reading a key that is not there gives undefined ([None]). *)
Definition prop (x : option json) (key : string) : Error + option json :=
  match x with
  | None => inl (mkError "TypeError")
  | Some JNull => inl (mkError "TypeError")
  | Some (JObj fields) => inr (field key fields)
  | Some _ => inr None
  end.

(** [x.a.b.c] *)
Definition prop3 (x : option json) (a b c : string) : Error + option json :=
  match prop x a with
  | inl e => inl e
  | inr xa =>
      match prop xa b with
      | inl e => inl e
      | inr xab => prop xab c
      end
  end.

(** An object literal whose values may be undefined. *)
Definition Literal : Type := list (string * option json).

(** [JSON.stringify] leaves out the keys whose value is undefined. *)
Fixpoint stringified (o : Literal) : list (string * json) :=
  match o with
  | [] => []
  | (k, Some v) :: rest => (k, v) :: stringified rest
  | (k, None) :: rest => stringified rest
  end.

(** The callback of [data.map]: the nine values, read in this order. *)
Definition pool_row (pool : json) : Error + Literal :=
  match prop (Some pool) "id" with inl e => inl e | inr id =>
  match prop (Some pool) "asset_a" with inl e => inl e | inr asset_a =>
  match prop3 (Some pool) "details" "asset_a" "symbol" with
  | inl e => inl e | inr asset_a_symbol =>
  match prop (Some pool) "asset_b" with inl e => inl e | inr asset_b =>
  match prop3 (Some pool) "details" "asset_b" "symbol" with
  | inl e => inl e | inr asset_b_symbol =>
  match prop3 (Some pool) "details" "share_asset" "symbol" with
  | inl e => inl e | inr share_asset_symbol =>
  match prop (Some pool) "balance_a" with inl e => inl e | inr balance_a =>
  match prop (Some pool) "balance_b" with inl e => inl e | inr balance_b =>
  match prop (Some pool) "taker_fee_percent" with
  | inl e => inl e | inr taker_fee_percent =>
      inr [("id", id);
           ("asset_a_id", asset_a);
           ("asset_a_symbol", asset_a_symbol);
           ("asset_b_id", asset_b);
           ("asset_b_symbol", asset_b_symbol);
           ("share_asset_symbol", share_asset_symbol);
           ("balance_a", balance_a);
           ("balance_b", balance_b);
           ("taker_fee_percent", taker_fee_percent)]
  end end end end end end end end end.

(** [pools.map(callback)]: the first pool that throws ends it. *)
Fixpoint map_rows (pools : list json) : Error + list Literal :=
  match pools with
  | [] => inr []
  | pool :: rest =>
      match pool_row pool with
      | inl e => inl e
      | inr row =>
          match map_rows rest with
          | inl e => inl e
          | inr rows => inr (row :: rows)
          end
      end
  end.

(** [data.map(...)]: only an array has [map]. *)
Definition filteredPoolData (data : json) : Error + list Literal :=
  match data with
  | JArr pools => map_rows pools
  | _ => inl (mkError "TypeError")
  end.

(** [.catch(err => console.log('Error: ' + err.message))] *)
Definition script_catch (e : Error) : list ScriptEvent :=
  [SLog ("Error: " ++ message e)%string].

(** What the callback of an [fs.writeFile] does once the write is over:
    [if (err) throw err; console.log(msg)]. *)
Inductive Callback : Type :=
| Saved (msg : string)        (* console.log(msg) *)
| Rethrown (err : Error).     (* throw err, out of the callback *)

Definition write_callback (disk : string -> option Error) (path msg : string)
  : Callback :=
  match disk path with
  | Some err => Rethrown err
  | None => Saved msg
  end.

(** A run of the script: what the promise chain does, in order, and then
    the callbacks of the writes it started.  The callbacks run after the
    chain is through, in the order the writes end, which is up to the
    file system; they are listed in the order the writes were started. *)
Record ScriptRun : Type := mkRun {
  chain_events : list ScriptEvent;
  callbacks : list Callback
}.

(** The run of the script, given what [fetch] answers and whether a write
    to a path fails. *)
Definition pool_script (http : string -> FetchResult)
    (disk : string -> option Error) : ScriptRun :=
  match http pools_url with
  | FetchThrows e => mkRun (SFetch pools_url :: script_catch e) []
  | FetchReturns res =>
      match body_json res with
      | inl e => mkRun (SFetch pools_url :: script_catch e) []
      | inr data =>
          let saved_all :=
            write_callback disk "./src/data/allPools.json"
              "Pools data saved to allPools.json" in
          match filteredPoolData data with
          | inl e =>
              mkRun (SFetch pools_url
                       :: SWrite "./src/data/allPools.json" data
                       :: script_catch e)
                [saved_all]
          | inr rows =>
              mkRun [SFetch pools_url;
                     SWrite "./src/data/allPools.json" data;
                     SWrite "./src/data/pools.json"
                       (JArr (map (fun row => JObj (stringified row)) rows))]
                [saved_all;
                 write_callback disk "./src/data/pools.json"
                   "Pools data saved to pools.json"]
          end
      end
  end.

(** [x.key] where a missing key, or a value that is no object, gives
    undefined. *)
Definition sub (x : option json) (key : string) : option json :=
  match x with Some (JObj fields) => field key fields | _ => None end.

(** Neither undefined nor null: a value a property can be read from. *)
Definition defined (x : option json) : bool :=
  match x with
  | None => false
  | Some JNull => false
  | Some _ => true
  end.

(** A pool the callback can read: its [details] has all three assets. *)
Definition readable_pool (pool : json) : bool :=
  defined (sub (sub (Some pool) "details") "asset_a")
  && defined (sub (sub (Some pool) "details") "asset_b")
  && defined (sub (sub (Some pool) "details") "share_asset").

(** The object the callback builds from a pool it can read. *)
Definition row_of (pool : json) : Literal :=
  let asset x := sub (sub (sub (Some pool) "details") x) "symbol" in
  [("id", sub (Some pool) "id");
   ("asset_a_id", sub (Some pool) "asset_a");
   ("asset_a_symbol", asset "asset_a");
   ("asset_b_id", sub (Some pool) "asset_b");
   ("asset_b_symbol", asset "asset_b");
   ("share_asset_symbol", asset "share_asset");
   ("balance_a", sub (Some pool) "balance_a");
   ("balance_b", sub (Some pool) "balance_b");
   ("taker_fee_percent", sub (Some pool) "taker_fee_percent")].

(** The outcome shared by the entry points that take [app] when the node
    cannot be reached. *)
Definition unreachable_outcome (node chain : string) (e : Error) : Outcome :=
  mkOutcome [EConnect node; ELog (message e); EChangeURL chain]
    (Some (Rejected e)).

(** The three outcomes of a query that takes an empty answer for nothing:
    the call throws, the answer is nothing or empty, the answer has rows. *)
Definition filled_query_outcome (node : string) (call : Event)
    (not_found : string) (answer : RpcResult) : Outcome :=
  match answer with
  | Throws e =>
      mkOutcome [EConnect node; call; ELog (message e); EClose; EClose]
        (Some (Rejected e))
  | Returns (Some (row :: rows)) =>
      mkOutcome [EConnect node; call; EClose]
        (Some (Resolved (VValid (VJson (JArr (row :: rows))))))
  | Returns _ =>
      mkOutcome [EConnect node; call; EClose]
        (Some (Rejected (mkError not_found)))
  end.

(** ** Reading a trace, continued *)

(** The messages that were logged. *)
Definition logs (t : list Event) : list string :=
  flat_map (fun e => match e with ELog m => [m] | _ => [] end) t.

(** The URLs that were fetched. *)
Definition fetches (t : list Event) : list string :=
  flat_map (fun e => match e with EFetch u => [u] | _ => [] end) t.

(** The files the script wrote, in order. *)
Definition written (t : list ScriptEvent) : list string :=
  flat_map (fun e => match e with SWrite p _ => [p] | _ => [] end) t.

(** [Math.ceil(len / size)] for a positive [size]. *)
Definition ceil_div (len size : nat) : nat := (len + size - 1) / size.

(** ** More sample worlds *)

(** A world with the sample configuration and every answer given. *)
Definition world_of (conn : string -> option Error) (dbapi : bool)
    (db : nat -> string -> list json -> RpcResult)
    (tbc : TransactionBuilder -> TbCall -> option Error)
    (enc : BeetRequest -> option Error) (http : string -> FetchResult) : Env :=
  mkEnv sample_chains sample_current_node conn dbapi db tbc
    "6b0f4c1e-0d3a-4f6e-9c55-2f1d8a7e4b90" enc http
    (fun _ => None) sample_positive.

(** The IDs of a list, as the parsed body of a request has them. *)
Definition ids_json (ids : list string) : json := JArr (map JStr ids).

(** A builder that knows no operation type but liquidity_pool_exchange. *)
Definition picky_builder (tr : TransactionBuilder) (c : TbCall)
  : option Error :=
  match c with
  | add_type_operation opType _ =>
      if String.eqb opType "liquidity_pool_exchange" then None
      else Some (mkError "Unknown operation")
  | _ => None
  end.

(** A builder that cannot reach the fee schedule. *)
Definition feeless_builder (tr : TransactionBuilder) (c : TbCall)
  : option Error :=
  match c with
  | set_required_fees => Some (mkError "fee schedule unavailable")
  | _ => None
  end.

Definition easy_builder (tr : TransactionBuilder) (c : TbCall)
  : option Error := None.

Definition encodes : BeetRequest -> option Error := fun _ => None.
Definition malformed : BeetRequest -> option Error :=
  fun _ => Some (mkError "URI malformed").

(** A world where everything the code waits for succeeds, but the promise
    that [finalize] returns rejects. *)
Definition late_failure : Error := mkError "finalize failed".
Definition late_finalize_world : Env :=
  mkEnv sample_chains sample_current_node up true empty_db easy_builder
    "6b0f4c1e-0d3a-4f6e-9c55-2f1d8a7e4b90" encodes offline
    (fun _ => Some late_failure) sample_positive.

(** A node on which every request times out. *)
Definition dead_db (n : nat) (name : string) (args : list json)
  : RpcResult := Throws (mkError "timeout").

(** A history service with a document for every account. *)
Definition history_doc : json := JArr [JObj [("account", JStr "1.2.100")]].
Definition history_service : string -> FetchResult :=
  fun _ => FetchReturns (mkResponse true "200" "OK" (inr history_doc)).

Definition sample_pool : json :=
  JObj [("id", JStr "1.19.0"); ("asset_a", JStr "1.3.0");
        ("asset_b", JStr "1.3.3291"); ("balance_a", JNum 100);
        ("balance_b", JNum 7); ("taker_fee_percent", JNum 30);
        ("details",
         JObj [("asset_a", JObj [("symbol", JStr "BTS")]);
               ("asset_b", JObj [("symbol", JStr "HONEST.USD")]);
               ("share_asset", JObj [("symbol", JStr "POOL.0")])])].

(** A pool entry without its details. *)
Definition bare_pool : json :=
  JObj [("id", JStr "1.19.1"); ("asset_a", JStr "1.3.0");
        ("asset_b", JStr "1.3.5")].

Definition pools_service (data : json) : string -> FetchResult :=
  fun _ => FetchReturns (mkResponse true "200" "OK" (inr data)).

(** * Properties *)

Unset Implicit Arguments.

(** Unfold the primitives of the executor and compute. *)
Ltac run_executor :=
  unfold promise, bind, try_catch, init_promise, no_db_api, exec, http_get,
    emit, ret, throw, hang, log, log_text, Apis_close, changeURL, resolve,
    reject, settle, drop_promise, return_; cbn.

(** Case analysis on every test a handler makes. *)
Ltac split_guards :=
  repeat match goal with
         | |- context [if ?b then _ else _] => destruct b
         | |- context [match ?x with _ => _ end] => destruct x
         end.


(** ** Chunking *)

Lemma chunk_list_acc {A} (rounds : nat) (arr : list A) (size : nat) :
  forall i chunks,
    chunk_list rounds arr size i chunks
    = chunks ++ chunk_list rounds arr size i [].
Proof.
  induction rounds as [|n IH]; intros i chunks; simpl.
  - now rewrite app_nil_r.
  - destruct (i <? List.length arr).
    + rewrite IH, (IH _ [_]). now rewrite app_assoc.
    + now rewrite app_nil_r.
Qed.

Lemma slice_step {A} (arr : list A) (i size : nat) :
  slice arr i (i + size) = firstn size (skipn i arr).
Proof. unfold slice. f_equal. lia. Qed.

(** With a positive size, more rounds than [length arr - i] change
    nothing. *)
Lemma chunk_list_rounds {A} (arr : list A) (size : nat) :
  0 < size ->
  forall n m i chunks,
    List.length arr - i <= n -> List.length arr - i <= m ->
    chunk_list n arr size i chunks = chunk_list m arr size i chunks.
Proof.
  intros Hsize. induction n as [|n IH]; intros m i chunks Hn Hm.
  - destruct m as [|m]; simpl; [reflexivity|].
    destruct (Nat.ltb_spec i (List.length arr)); [lia | reflexivity].
  - destruct m as [|m]; simpl;
      destruct (Nat.ltb_spec i (List.length arr)); try reflexivity; try lia.
    apply IH; lia.
Qed.

(** With a positive size the loop leaves through its own condition within
    [length arr - i] rounds, with the chunks collected till then. *)
Lemma chunk_loop_ends {A} (arr : list A) (size : nat) :
  0 < size ->
  forall rounds i chunks,
    List.length arr - i <= rounds ->
    chunk_loop rounds arr size i chunks
    = Some (chunk_list rounds arr size i chunks).
Proof.
  intros Hsize. induction rounds as [|n IH]; intros i chunks Hn; simpl.
  - destruct (Nat.ltb_spec i (List.length arr)); [lia | reflexivity].
  - destruct (Nat.ltb_spec i (List.length arr)); [|reflexivity].
    apply IH. lia.
Qed.

(** With size 0 the loop never leaves a non-empty array, however many
    rounds it is given. *)
Lemma chunk_loop_never_ends {A} (arr : list A) :
  forall rounds i chunks,
    i < List.length arr -> chunk_loop rounds arr 0 i chunks = None.
Proof.
  induction rounds as [|n IH]; intros i chunks Hi; simpl;
    destruct (Nat.ltb_spec i (List.length arr)); try lia; [reflexivity|].
  apply IH. lia.
Qed.

Lemma sliceIntoChunks_returns {A} (arr : list A) (size : nat) :
  0 < size -> _sliceIntoChunks arr size = Some (chunks_of arr size).
Proof.
  intros Hsize. unfold _sliceIntoChunks, chunks_of.
  apply chunk_loop_ends; [exact Hsize | lia].
Qed.

Lemma chunk_list_concat {A} (arr : list A) (size : nat) :
  0 < size ->
  forall n i,
    List.length arr - i <= n ->
    List.concat (chunk_list n arr size i []) = skipn i arr.
Proof.
  intros Hsize. induction n as [|n IH]; intros i Hn; simpl.
  - symmetry. apply skipn_all2. lia.
  - destruct (Nat.ltb_spec i (List.length arr)) as [Hlt | Hge].
    + rewrite chunk_list_acc, concat_app, IH by lia. simpl.
      rewrite app_nil_r, slice_step.
      replace (i + size) with (size + i) by lia.
      rewrite <- skipn_skipn. apply firstn_skipn.
    + symmetry. apply skipn_all2. lia.
Qed.

Lemma chunk_list_lengths {A} (arr : list A) (size : nat) :
  forall n i,
    map (@List.length A) (chunk_list n arr size i [])
    = chunk_sizes n (List.length arr) size i.
Proof.
  induction n as [|n IH]; intros i; simpl; [reflexivity|].
  destruct (i <? List.length arr); [|reflexivity].
  rewrite chunk_list_acc. simpl. rewrite IH, slice_step.
  now rewrite length_firstn, length_skipn.
Qed.

Lemma chunk_sizes_bounds (size : nat) :
  0 < size ->
  forall n len i, Forall (fun k => 1 <= k <= size) (chunk_sizes n len size i).
Proof.
  intros Hsize. induction n as [|n IH]; intros len i; simpl; [constructor|].
  destruct (Nat.ltb_spec i len); constructor; [lia | apply IH].
Qed.

Lemma sliceIntoChunks_concat {A} (arr : list A) (size : nat) :
  0 < size -> List.concat (chunks_of arr size) = arr.
Proof.
  intros Hsize. unfold chunks_of.
  rewrite chunk_list_concat by lia. reflexivity.
Qed.

Lemma sliceIntoChunks_bounds {A} (arr : list A) (size : nat) :
  0 < size ->
  Forall (fun c => 1 <= List.length c <= size) (chunks_of arr size).
Proof.
  intros Hsize. unfold chunks_of.
  pose proof (chunk_sizes_bounds size Hsize (List.length arr)
                (List.length arr) 0) as H.
  rewrite <- chunk_list_lengths in H.
  now apply Forall_map in H.
Qed.

(** ** The loop of the batch fetch *)

Lemma merged_no_db (env : Env) :
  has_db_api env = false -> forall chunks n, merged env n chunks = [].
Proof.
  intros Hdb. induction chunks as [|c rest IH]; intros n; simpl;
    [reflexivity|].
  unfold chunk_rows. now rewrite Hdb, IH.
Qed.

Lemma chunks_trace_no_db (env : Env) :
  has_db_api env = false ->
  forall chunks n,
    chunks_trace env n chunks = map (fun _ => ELog "TypeError") chunks.
Proof.
  intros Hdb. induction chunks as [|c rest IH]; intros n; simpl;
    [reflexivity|].
  unfold chunk_events. now rewrite Hdb, IH.
Qed.

Lemma for_chunks_run (env : Env) :
  forall chunks retrieved s,
    for_chunks env chunks retrieved s
    = (mkState (trace s ++ chunks_trace env (issued s) chunks)
               (settled s)
               (issued s
                  + if has_db_api env then List.length chunks else 0)
               (unhandled s),
       Next (retrieved ++ merged env (issued s) chunks)).
Proof.
  destruct (has_db_api env) eqn:Hdb.
  - induction chunks as [|c rest IH]; intros retrieved s; simpl.
    + rewrite !app_nil_r, Nat.add_0_r. now destruct s.
    + unfold bind, try_catch, exec, log, emit, ret, chunk_events, chunk_rows.
      rewrite Hdb.
      destruct (db_exec env (issued s) "get_objects" [c; JBool false])
        as [e | [[|row rows] |]];
        simpl; rewrite IH; simpl;
        rewrite <- ?app_assoc, ?app_nil_r, ?Nat.add_succ_r; reflexivity.
  - induction chunks as [|c rest IH]; intros retrieved s; simpl.
    + rewrite !app_nil_r, Nat.add_0_r. now destruct s.
    + unfold bind, try_catch, exec, log, emit, ret, chunk_events, chunk_rows.
      rewrite Hdb. simpl. rewrite IH. simpl.
      rewrite !(merged_no_db env Hdb), !(chunks_trace_no_db env Hdb).
      now rewrite <- app_assoc.
Qed.

Lemma execs_app (a b : list Event) : execs (a ++ b) = execs a ++ execs b.
Proof. apply flat_map_app. Qed.

Lemma rotations_app (a b : list Event) :
  rotations (a ++ b) = rotations a ++ rotations b.
Proof. apply flat_map_app. Qed.

Lemma closes_app (a b : list Event) : closes (a ++ b) = closes a + closes b.
Proof. unfold closes. now rewrite filter_app, length_app. Qed.

Lemma connects_app (a b : list Event) :
  connects (a ++ b) = connects a ++ connects b.
Proof. apply flat_map_app. Qed.

Lemma logs_app (a b : list Event) : logs (a ++ b) = logs a ++ logs b.
Proof. apply flat_map_app. Qed.

(** The calls the loop sends: one per chunk, or none without a database
    API. *)
Lemma execs_chunks_trace (env : Env) :
  forall chunks n,
    execs (chunks_trace env n chunks)
    = if has_db_api env then map get_objects_call chunks else [].
Proof.
  induction chunks as [|c rest IH]; intros n; simpl.
  - now destruct (has_db_api env).
  - rewrite execs_app, IH. unfold chunk_events, get_objects_call.
    destruct (has_db_api env); [|reflexivity].
    now destruct (db_exec env n "get_objects" [c; JBool false]).
Qed.

Lemma rotations_chunks_trace (env : Env) :
  forall chunks n, rotations (chunks_trace env n chunks) = [].
Proof.
  induction chunks as [|c rest IH]; intros n; simpl; [reflexivity|].
  rewrite rotations_app, IH. unfold chunk_events.
  destruct (has_db_api env); [|reflexivity].
  now destruct (db_exec env n "get_objects" [c; JBool false]).
Qed.

Lemma closes_chunks_trace (env : Env) :
  forall chunks n, closes (chunks_trace env n chunks) = 0.
Proof.
  induction chunks as [|c rest IH]; intros n; cbn [chunks_trace];
    [reflexivity|].
  rewrite closes_app, IH. unfold chunk_events.
  destruct (has_db_api env); [|reflexivity].
  now destruct (db_exec env n "get_objects" [c; JBool false]).
Qed.

Lemma connects_chunks_trace (env : Env) :
  forall chunks n, connects (chunks_trace env n chunks) = [].
Proof.
  induction chunks as [|c rest IH]; intros n; simpl; [reflexivity|].
  rewrite connects_app, IH. unfold chunk_events.
  destruct (has_db_api env); [|reflexivity].
  now destruct (db_exec env n "get_objects" [c; JBool false]).
Qed.

(** Every chunk leaves one log entry when it fails and none otherwise. *)
Lemma logs_chunks_trace_no_db (env : Env) :
  has_db_api env = false ->
  forall chunks n,
    List.length (logs (chunks_trace env n chunks)) = List.length chunks.
Proof.
  intros Hdb chunks n. rewrite (chunks_trace_no_db env Hdb).
  induction chunks as [|c rest IH]; simpl; [reflexivity | now rewrite IH].
Qed.

(** Cutting the argument of [getObjects]. *)
Lemma chunks_of_input_run (env : Env) (object_ids : json) (s : PState) :
  chunks_of_input env object_ids 50 s
  = (s, match input_chunks env object_ids with
        | Some chunks => Next chunks
        | None => Throw (mkError "TypeError")
        end).
Proof.
  assert (H50 : 0 < 50) by lia.
  destruct object_ids as [| b | n | str | items | fields]; simpl;
    try reflexivity.
  - now rewrite (sliceIntoChunks_returns (list_ascii_of_string str) 50 H50).
  - now rewrite (sliceIntoChunks_returns items 50 H50).
  - destruct (field "length" fields) as [n|]; [|reflexivity].
    now destruct (js_positive env n).
Qed.

Lemma pick_node (env : Env) (chain : string) (app : option App)
    (node : string) :
  endpoint env chain app = Some node ->
  match app with
  | Some a => ret (getCurrentNode env chain a)
  | None => first_node env chain
  end = ret node.
Proof.
  unfold endpoint. intros Hnode. destruct app as [a|].
  - now inversion Hnode.
  - unfold first_node. destruct (chains env chain) as [[|n rest]|];
      try discriminate. now inversion Hnode.
Qed.

(** The whole run of [getObjects] once the connection is up. *)
Lemma getObjects_run (env : Env) (chain : string) (object_ids : json)
    (app : option App) (node : string) (chunks : list json) :
  endpoint env chain app = Some node ->
  connect env node = None ->
  input_chunks env object_ids = Some chunks ->
  fst (getObjects env chain object_ids app start)
  = mkState
      (EConnect node :: chunks_trace env 0 chunks ++ [EClose])
      (Some (objects_settlement app (merged env 0 chunks)))
      (if has_db_api env then List.length chunks else 0)
      [].
Proof.
  intros Hnode Hconn Hcut. unfold getObjects.
  rewrite (pick_node env chain app node Hnode).
  unfold bind at 1. unfold ret at 1.
  unfold bind at 1. unfold try_catch, init_promise, bind at 1.
  unfold emit at 1. rewrite Hconn. unfold ret at 1. cbv beta iota.
  unfold bind at 1. rewrite chunks_of_input_run, Hcut. cbv beta iota.
  unfold bind at 1. rewrite for_chunks_run. cbv beta iota.
  unfold Apis_close, bind, emit, resolve, reject, settle, return_,
    objects_settlement, objects_value.
  simpl. destruct (merged env 0 chunks); simpl; destruct app; reflexivity.
Qed.

Lemma getObjects_connected (env : Env) (chain : string) (object_ids : json)
    (app : option App) (node : string) :
  endpoint env chain app = Some node ->
  connect env node = None ->
  promise (getObjects env chain object_ids app)
  = match input_chunks env object_ids with
    | Some chunks =>
        mkOutcome
          (EConnect node :: chunks_trace env 0 chunks ++ [EClose])
          (Some (objects_settlement app (merged env 0 chunks)))
    | None => mkOutcome [EConnect node] None
    end.
Proof.
  intros Hnode Hconn.
  destruct (input_chunks env object_ids) as [chunks|] eqn:Hcut.
  - unfold promise.
    now rewrite (getObjects_run env chain object_ids app node chunks
                   Hnode Hconn Hcut).
  - unfold promise.
    assert (Hrun : fst (getObjects env chain object_ids app start)
                   = mkState [EConnect node] None 0 []).
    { unfold getObjects.
      rewrite (pick_node env chain app node Hnode).
      unfold bind at 1. unfold ret at 1.
      unfold bind at 1. unfold try_catch, init_promise, bind at 1.
      unfold emit at 1. rewrite Hconn. unfold ret at 1. cbv beta iota.
      unfold bind at 1. rewrite chunks_of_input_run, Hcut. reflexivity. }
    now rewrite Hrun.
Qed.

(** The run of [getObjects] when the connection cannot be opened. *)
Lemma getObjects_unreachable (env : Env) (chain : string)
    (object_ids : json) (app : option App) (node : string) (e : Error) :
  endpoint env chain app = Some node ->
  connect env node = Some e ->
  promise (getObjects env chain object_ids app)
  = mkOutcome
      ([EConnect node; ELog (message e); EClose]
         ++ match app with Some _ => [EChangeURL chain] | None => [] end)
      (Some (Rejected e)).
Proof.
  intros Hnode Hconn. unfold promise, getObjects.
  rewrite (pick_node env chain app node Hnode).
  unfold bind, ret, try_catch, init_promise, emit, throw, log, Apis_close,
    changeURL, reject, settle, return_.
  simpl. rewrite Hconn. destruct app; reflexivity.
Qed.

Lemma merged_app (env : Env) :
  forall a b n,
    merged env n (a ++ b)
    = merged env n a ++ merged env (n + List.length a) b.
Proof.
  induction a as [|c a IH]; intros b n; simpl.
  - now rewrite Nat.add_0_r.
  - now rewrite IH, app_assoc, Nat.add_succ_r.
Qed.

Lemma merged_answers (env : Env) (answer : json -> list json) :
  has_db_api env = true ->
  forall chunks,
    (forall n c,
       In c chunks ->
       db_exec env n "get_objects" [c; JBool false]
       = Returns (Some (answer c))) ->
    forall n, merged env n chunks = filter not_null (flat_map answer chunks).
Proof.
  intros Hdb. induction chunks as [|c rest IH]; intros Hans n; simpl;
    [reflexivity|].
  rewrite filter_app, IH by (intros; apply Hans; now right).
  unfold chunk_rows. rewrite Hdb, Hans by now left. reflexivity.
Qed.

Lemma filter_not_null_clean (rows : list json) :
  ~ In JNull (filter not_null rows).
Proof. intros H. apply filter_In in H. now destruct H. Qed.

Lemma merged_clean (env : Env) :
  forall chunks n, ~ In JNull (merged env n chunks).
Proof.
  induction chunks as [|c rest IH]; intros n; simpl; [tauto|].
  intros H. apply in_app_or in H. destruct H as [H|H].
  - unfold chunk_rows in H. destruct (has_db_api env); [|contradiction].
    destruct (db_exec env n "get_objects" [c; JBool false])
      as [e | [rows|]]; try contradiction.
    now apply filter_not_null_clean in H.
  - now apply IH in H.
Qed.

(** The trace of a run over all chunks, read. *)
Lemma connected_trace (env : Env) (node : string) (chunks : list json) :
  execs (EConnect node :: chunks_trace env 0 chunks ++ [EClose])
  = (if has_db_api env then map get_objects_call chunks else [])
  /\ rotations (EConnect node :: chunks_trace env 0 chunks ++ [EClose]) = []
  /\ connects (EConnect node :: chunks_trace env 0 chunks ++ [EClose])
     = [node]
  /\ closes (EConnect node :: chunks_trace env 0 chunks ++ [EClose]) = 1.
Proof.
  change (EConnect node :: chunks_trace env 0 chunks ++ [EClose])
    with ([EConnect node] ++ chunks_trace env 0 chunks ++ [EClose]).
  rewrite !execs_app, !rotations_app, !connects_app, !closes_app,
    execs_chunks_trace, rotations_chunks_trace, connects_chunks_trace,
    closes_chunks_trace.
  cbn. rewrite app_nil_r. repeat split.
Qed.

(** ** The batch object fetch *)

Lemma merged_lookup (env : Env) (lookup : json -> json) :
  has_db_api env = true ->
  (forall n c,
     db_exec env n "get_objects" [JArr c; JBool false]
     = Returns (Some (map lookup c))) ->
  forall chunks n,
    merged env n (map JArr chunks)
    = filter not_null (map lookup (List.concat chunks)).
Proof.
  intros Hdb Hans. induction chunks as [|c rest IH]; intros n; simpl;
    [reflexivity|].
  rewrite map_app, filter_app, IH. unfold chunk_rows.
  now rewrite Hdb, Hans.
Qed.

(** C3: on a node with a database API, [getObjects] cuts the ID list into
    consecutive chunks of at most 50 elements that put together give the
    list back, and sends exactly one [get_objects] call per chunk, in
    order, with the flag [false]; a list of 120 IDs gives three calls of
    50, 50 and 20 IDs; and when the node answers every call row by row for
    the IDs asked, the merged result is in input order. *)
Theorem getObjects_chunks_of_50 (env : Env) (chain : string)
    (ids : list json) (app : option App) (node : string) :
  endpoint env chain app = Some node ->
  connect env node = None ->
  has_db_api env = true ->
  let chunks := chunks_of ids 50 in
  let o := promise (getObjects env chain (JArr ids) app) in
  _sliceIntoChunks ids 50 = Some chunks
  /\ List.concat chunks = ids
  /\ Forall (fun c => 1 <= List.length c <= 50) chunks
  /\ execs (calls o) = map (fun c => get_objects_call (JArr c)) chunks
  /\ (List.length ids = 120 ->
      map (@List.length json) chunks = [50; 50; 20])
  /\ (forall lookup : json -> json,
        (forall n c,
           db_exec env n "get_objects" [JArr c; JBool false]
           = Returns (Some (map lookup c))) ->
        result o
        = Some (objects_settlement app (filter not_null (map lookup ids)))).
Proof.
  intros Hnode Hconn Hdb chunks o.
  assert (H50 : 0 < 50) by lia.
  assert (Hcat : List.concat chunks = ids)
    by (apply sliceIntoChunks_concat; lia).
  subst o. rewrite (getObjects_connected env chain (JArr ids) app node
                      Hnode Hconn).
  cbn [input_chunks calls result]. fold chunks.
  destruct (connected_trace env node (map JArr chunks)) as (Hexecs & _).
  split; [now apply sliceIntoChunks_returns|].
  split; [exact Hcat|].
  split; [now apply sliceIntoChunks_bounds|].
  split; [|split].
  - rewrite Hexecs, Hdb. now rewrite map_map.
  - intros Hlen. unfold chunks, chunks_of.
    rewrite chunk_list_lengths, Hlen. reflexivity.
  - intros lookup Hans.
    now rewrite (merged_lookup env lookup Hdb Hans), Hcat.
Qed.

(** C4: a chunk whose call fails (it throws, or there is no database API
    to call) adds nothing to the merged result and the chunks after it are
    still processed; the promise is rejected with the "no objects" error
    exactly when the merged result is empty, and is resolved with the
    merged result whenever that is not empty. *)
Theorem getObjects_tolerates_failed_chunks (env : Env) (chain : string)
    (ids : list json) (app : option App) (node : string) :
  endpoint env chain app = Some node ->
  connect env node = None ->
  let sent := map JArr (chunks_of ids 50) in
  let o := promise (getObjects env chain (JArr ids) app) in
  execs (calls o)
  = (if has_db_api env then map get_objects_call sent else [])
  /\ (forall before c after,
        sent = before ++ c :: after ->
        has_db_api env = false
        \/ (exists e,
              db_exec env (List.length before) "get_objects"
                [c; JBool false] = Throws e) ->
        merged env 0 sent
        = merged env 0 before ++ merged env (S (List.length before)) after)
  /\ (merged env 0 sent = [] <->
      result o = Some (Rejected (mkError "Couldn't retrieve objects")))
  /\ (merged env 0 sent <> [] ->
      result o = Some (Resolved (objects_value app (merged env 0 sent)))).
Proof.
  intros Hnode Hconn sent o.
  subst o. rewrite (getObjects_connected env chain (JArr ids) app node
                      Hnode Hconn).
  cbn [input_chunks calls result]. fold sent.
  destruct (connected_trace env node sent) as (Hexecs & _).
  split; [exact Hexecs|]. split; [|split; [split|]].
  - intros before c after Hsplit Hfail.
    rewrite Hsplit, merged_app. cbn [merged plus].
    unfold chunk_rows. destruct Hfail as [-> | [e ->]]; [reflexivity|].
    now destruct (has_db_api env).
  - intros Hempty. now rewrite Hempty.
  - destruct (merged env 0 sent); [reflexivity | discriminate].
  - intros Hrows. destruct (merged env 0 sent); [contradiction | reflexivity].
Qed.

(** C5: the null rows a successful chunk returns for unknown IDs are dropped
    before merging: the promise settles on a merged result without nulls,
    to which a chunk that is answered adds exactly its rows that are not
    null, in order; when every chunk is answered this is the sequence of
    all answered rows without the nulls. *)
Theorem getObjects_drops_null_rows (env : Env) (chain : string)
    (ids : list json) (app : option App) (node : string) :
  endpoint env chain app = Some node ->
  connect env node = None ->
  let sent := map JArr (chunks_of ids 50) in
  result (promise (getObjects env chain (JArr ids) app))
  = Some (objects_settlement app (merged env 0 sent))
  /\ ~ In JNull (merged env 0 sent)
  /\ (forall before c after rows,
        sent = before ++ c :: after ->
        has_db_api env = true ->
        db_exec env (List.length before) "get_objects" [c; JBool false]
        = Returns (Some rows) ->
        merged env 0 sent
        = merged env 0 before ++ filter not_null rows
            ++ merged env (S (List.length before)) after)
  /\ (forall answer : json -> list json,
        has_db_api env = true ->
        (forall n c,
           db_exec env n "get_objects" [c; JBool false]
           = Returns (Some (answer c))) ->
        merged env 0 sent = filter not_null (flat_map answer sent)).
Proof.
  intros Hnode Hconn sent. repeat split.
  - now rewrite (getObjects_connected env chain (JArr ids) app node
                   Hnode Hconn).
  - apply merged_clean.
  - intros before c after rows Hsplit Hdb Hrows.
    rewrite Hsplit, merged_app. cbn [merged plus].
    unfold chunk_rows. now rewrite Hdb, Hrows.
  - intros answer Hdb Hans. apply merged_answers; [exact Hdb|].
    intros n c _. apply Hans.
Qed.

(** C10: without [app], [getObjects] connects to the first node of the
    static list of the chain and never rotates the node order; when that
    connection fails it logs, closes and rejects with the error at once.
    With [app] the order is rotated exactly when the connection fails. *)
Theorem getObjects_without_app_uses_first_node (env : Env) (chain : string)
    (object_ids : json) (n : Node) (rest : list Node) :
  chains env chain = Some (n :: rest) ->
  let o := promise (getObjects env chain object_ids None) in
  connects (calls o) = [url n]
  /\ rotations (calls o) = []
  /\ (forall e,
        connect env (url n) = Some e ->
        calls o = [EConnect (url n); ELog (message e); EClose]
        /\ result o = Some (Rejected e))
  /\ (forall app,
        rotations (calls (promise (getObjects env chain object_ids
                                     (Some app))))
        = match connect env (getCurrentNode env chain app) with
          | Some _ => [chain]
          | None => []
          end).
Proof.
  intros Hchain o.
  assert (Hnode : endpoint env chain None = Some (url n))
    by (unfold endpoint; now rewrite Hchain).
  assert (Hup : forall app node,
            endpoint env chain app = Some node ->
            connect env node = None ->
            connects (calls (promise (getObjects env chain object_ids app)))
            = [node]
            /\ rotations
                 (calls (promise (getObjects env chain object_ids app)))
               = []).
  { intros app node Hn Hc.
    rewrite (getObjects_connected env chain object_ids app node Hn Hc).
    destruct (input_chunks env object_ids) as [chunks|]; [|now split].
    destruct (connected_trace env node chunks) as (_ & Hrot & Hcon & _).
    now split. }
  subst o. repeat split.
  - destruct (connect env (url n)) as [e|] eqn:Hconn.
    + now rewrite (getObjects_unreachable env chain object_ids None _ _
                     Hnode Hconn).
    + apply (Hup None (url n) Hnode Hconn).
  - destruct (connect env (url n)) as [e|] eqn:Hconn.
    + now rewrite (getObjects_unreachable env chain object_ids None _ _
                     Hnode Hconn).
    + apply (Hup None (url n) Hnode Hconn).
  - now rewrite (getObjects_unreachable env chain object_ids None _ _ Hnode H).
  - now rewrite (getObjects_unreachable env chain object_ids None _ _ Hnode H).
  - intros app.
    destruct (connect env (getCurrentNode env chain app)) as [e|] eqn:Hconn.
    + now rewrite (getObjects_unreachable env chain object_ids (Some app) _ _
                     eq_refl Hconn).
    + apply (Hup (Some app) _ eq_refl Hconn).
Qed.

(** ** The transaction orchestrator *)

Lemma builder_calls_app (a b : list Event) :
  builder_calls (a ++ b) = builder_calls a ++ builder_calls b.
Proof. apply flat_map_app. Qed.

Lemma builder_calls_ETb (l : list TbCall) : builder_calls (map ETb l) = l.
Proof. induction l as [|c l IH]; simpl; [reflexivity | now rewrite IH]. Qed.

Lemma closes_ETb (l : list TbCall) : closes (map ETb l) = 0.
Proof. induction l as [|c l IH]; [reflexivity | exact IH]. Qed.

Lemma gated_app (env : Env) :
  forall a b tr,
    gated env (a ++ b) tr
    = match gated env a tr with
      | (sa, inl e) => (sa, inl e)
      | (sa, inr tr') =>
          let (sb, rb) := gated env b tr' in (sa ++ sb, rb)
      end.
Proof.
  induction a as [|c a IH]; intros b tr; simpl.
  - now destruct (gated env b tr).
  - destruct (tb_call env tr c); [reflexivity|].
    rewrite IH. destruct (gated env a (tr ++ [c])) as [sa [e|tr']];
      [reflexivity|].
    now destruct (gated env b tr').
Qed.

(** The steps that were started are an initial part of the steps given, and
    when none fails all of them ran and were applied to the draft. *)
Lemma gated_prefix (env : Env) :
  forall steps tr, exists rest, steps = fst (gated env steps tr) ++ rest.
Proof.
  induction steps as [|c steps IH]; intros tr; simpl.
  - now exists [].
  - destruct (tb_call env tr c).
    + now exists steps.
    + destruct (IH (tr ++ [c])) as [rest Hrest].
      destruct (gated env steps (tr ++ [c])) as [started r].
      exists rest. simpl in *. now rewrite <- Hrest.
Qed.

Lemma gated_done (env : Env) :
  forall steps tr started tr',
    gated env steps tr = (started, inr tr') ->
    started = steps /\ tr' = tr ++ steps.
Proof.
  induction steps as [|c steps IH]; intros tr started tr' H; simpl in H.
  - inversion H. now rewrite app_nil_r.
  - destruct (tb_call env tr c); [discriminate|].
    destruct (gated env steps (tr ++ [c])) as [st r] eqn:Hg.
    inversion H; subst. destruct (IH _ _ _ Hg) as [-> ->].
    now rewrite <- app_assoc.
Qed.

Lemma add_operations_run (env : Env) (opType : string) :
  forall operations tr s,
    add_operations env opType operations tr s
    = (mkState
         (trace s
            ++ map ETb
                 (fst (gated env (map (add_type_operation opType) operations)
                         tr)))
         (settled s) (issued s) (unhandled s),
       match snd (gated env (map (add_type_operation opType) operations) tr)
       with
       | inl e => Throw e
       | inr tr' => Next tr'
       end).
Proof.
  induction operations as [|op rest IH]; intros tr s; simpl.
  - rewrite app_nil_r. now destruct s.
  - unfold bind, tb, emit, ret, throw. simpl.
    destruct (tb_call env tr (add_type_operation opType op)); simpl.
    + reflexivity.
    + rewrite IH. simpl.
      destruct (gated env (map (add_type_operation opType) rest)
                  (tr ++ [add_type_operation opType op])) as [started r].
      simpl. now rewrite <- app_assoc.
Qed.

Lemma generateDeepLink_run (env : Env) (chain opType : string)
    (operations : list json) (app : App) :
  connect env (getCurrentNode env chain app) = None ->
  promise (generateDeepLink env chain opType operations app)
  = deeplink_outcome env chain opType operations app.
Proof.
  intros Hconn. unfold promise. cbv zeta.
  set (run := generateDeepLink env chain opType operations app start).
  assert (Hrun : run = generateDeepLink env chain opType operations app start)
    by reflexivity.
  clearbody run.
  unfold generateDeepLink in Hrun.
  unfold bind at 1 in Hrun.
  unfold try_catch at 1, init_promise, bind at 1, emit at 1 in Hrun.
  rewrite Hconn in Hrun. unfold ret at 1 in Hrun. cbv beta iota in Hrun.
  unfold bind at 1 in Hrun. rewrite add_operations_run in Hrun.
  unfold deeplink_outcome, last_steps.
  destruct (gated env (map (add_type_operation opType) operations) [])
    as [added [e|tr]].
  - cbn in Hrun. now subst run.
  - cbn [fst snd gated] in *.
    unfold bind, try_catch, tb_finalize, tb, emit, ret, throw, log,
      Apis_close, reject, resolve, settle, drop_promise, return_ in Hrun.
    cbn in Hrun.
    destruct (tb_call env tr update_head_block) as [e|].
    { subst run. cbn. rewrite <- ?app_assoc. reflexivity. }
    destruct (tb_call env (tr ++ [update_head_block]) set_required_fees)
      as [e|].
    { subst run. cbn. rewrite <- ?app_assoc. reflexivity. }
    destruct (tb_call env ((tr ++ [update_head_block]) ++ [set_required_fees])
                (set_expire_seconds 7200)) as [e|].
    { subst run. cbn. rewrite <- ?app_assoc. reflexivity. }
    destruct (tb_call env
                (((tr ++ [update_head_block]) ++ [set_required_fees])
                   ++ [set_expire_seconds 7200]) finalize) as [e|].
    { subst run. cbn. rewrite <- ?app_assoc. reflexivity. }
    cbn in Hrun.
    destruct (encode_error env _) as [e|]; subst run; cbn;
      rewrite <- ?app_assoc; reflexivity.
Qed.

Lemma builder_calls_cons_connect node t :
  builder_calls (EConnect node :: t) = builder_calls t.
Proof. reflexivity. Qed.

(** Once connected, [generateDeepLink] makes its builder calls in the
    fixed order (one [add_type_operation] per payload in input order, then
    reference block, fees, an expiration of 7200 seconds, finalization),
    each one only if the one before did not fail in a way the code sees (a
    throw, or a rejection it awaits): the calls are exactly those a gated
    run of that sequence starts.  Such a failure leaves the promise
    rejected or unsettled; the rejection of the promise that [finalize]
    returns is not among them. *)
Lemma generateDeepLink_steps_in_order_seen (env : Env) (chain opType : string)
    (operations : list json) (app : App) :
  connect env (getCurrentNode env chain app) = None ->
  let o := promise (generateDeepLink env chain opType operations app) in
  let steps := build_steps opType operations in
  let started := fst (gated env steps []) in
  builder_calls (calls o) = started
  /\ (exists rest, steps = started ++ rest)
  /\ match snd (gated env steps []) with
     | inl e => result o = None \/ result o = Some (Rejected e)
     | inr tr =>
         started = steps /\ tr = steps
         /\ result o
            = Some (match encode_error env (deeplink_request env chain tr) with
                    | None => Resolved (VEncoded (deeplink_request env chain tr))
                    | Some e => Rejected e
                    end)
     end.
Proof.
  intros Hconn o steps started.
  split; [|split; [apply gated_prefix|]].
  - subst o started steps. rewrite (generateDeepLink_run _ _ _ _ _ Hconn).
    unfold deeplink_outcome, build_steps. fold last_steps.
    rewrite gated_app.
    destruct (gated env (map (add_type_operation opType) operations) [])
      as [added [e|tr]].
    + cbn [calls fst]. rewrite builder_calls_cons_connect.
      apply builder_calls_ETb.
    + destruct (gated env last_steps tr) as [later [e|tr']].
      * cbn [calls fst]. rewrite builder_calls_cons_connect.
        rewrite !builder_calls_app, !builder_calls_ETb. cbn.
        now rewrite app_nil_r.
      * cbn [fst]. destruct (encode_error env _); cbn [calls];
          rewrite builder_calls_cons_connect;
          rewrite !builder_calls_app, !builder_calls_ETb; cbn;
          now rewrite app_nil_r.
  - subst o started steps. rewrite (generateDeepLink_run _ _ _ _ _ Hconn).
    unfold deeplink_outcome, build_steps. fold last_steps.
    rewrite gated_app.
    destruct (gated env (map (add_type_operation opType) operations) [])
      as [added [e|tr]] eqn:Hadd.
    + now left.
    + destruct (gated env last_steps tr) as [later [e|tr']] eqn:Hlast.
      * now right.
      * destruct (gated_done _ _ _ _ _ Hadd) as [-> ->].
        destruct (gated_done _ _ _ _ _ Hlast) as [-> ->].
        cbn [fst snd List.app]. repeat split.
        now destruct (encode_error env _).
Qed.

(** C1 at a failing input: the builder calls are made in the fixed order,
    but [tr.finalize(Apis)] is not awaited: when the promise it returns
    rejects, nothing catches that, and the code closes the session and
    resolves with an envelope all the same. *)
Theorem generateDeepLink_ignores_failed_finalize :
  let body := generateDeepLink late_finalize_world "bitshares"
                "liquidity_pool_exchange" [swap_operation] sample_app in
  builder_calls (calls (promise body))
  = [add_type_operation "liquidity_pool_exchange" swap_operation;
     update_head_block; set_required_fees; set_expire_seconds 7200; finalize]
  /\ finalize_promise late_finalize_world
       [add_type_operation "liquidity_pool_exchange" swap_operation;
        update_head_block; set_required_fees; set_expire_seconds 7200]
     = Some late_failure
  /\ unhandled_rejections body = [late_failure]
  /\ exists request, result (promise body) = Some (Resolved (VEncoded request)).
Proof.
  cbv zeta. repeat split. eexists. reflexivity.
Qed.

(** The same for every world: once all steps are through as far as the
    code can see, the outcome does not depend on what becomes of the
    promise [finalize] returned, whose rejection stays unhandled. *)
Lemma generateDeepLink_drops_finalize_promise (env : Env)
    (chain opType : string) (operations : list json) (app : App)
    (e : Error) :
  connect env (getCurrentNode env chain app) = None ->
  snd (gated env (build_steps opType operations) [])
  = inr (build_steps opType operations) ->
  encode_error env (deeplink_request env chain
                      (build_steps opType operations)) = None ->
  finalize_promise env
    (map (add_type_operation opType) operations
       ++ [update_head_block; set_required_fees; set_expire_seconds 7200])
  = Some e ->
  result (promise (generateDeepLink env chain opType operations app))
  = Some (Resolved (VEncoded (deeplink_request env chain
                                (build_steps opType operations))))
  /\ unhandled_rejections (generateDeepLink env chain opType operations app)
     = [e].
Proof.
  intros Hconn Hsteps Henc Hfin. split.
  - rewrite (generateDeepLink_run env chain opType operations app Hconn).
    unfold deeplink_outcome. unfold build_steps in Hsteps.
    fold last_steps in Hsteps. rewrite gated_app in Hsteps.
    destruct (gated env (map (add_type_operation opType) operations) [])
      as [added [e'|tr]] eqn:Hadd; [discriminate|].
    destruct (gated env last_steps tr) as [later [e'|tr']] eqn:Hlast;
      [discriminate|].
    destruct (gated_done env _ _ _ _ Hadd) as [-> ->].
    destruct (gated_done env _ _ _ _ Hlast) as [-> ->].
    cbn [List.app] in *. unfold build_steps in Henc. fold last_steps in Henc.
    rewrite Henc. reflexivity.
  - unfold unhandled_rejections, generateDeepLink.
    unfold bind at 1.
    unfold try_catch at 1, init_promise, bind at 1, emit at 1.
    rewrite Hconn. unfold ret at 1. cbv beta iota.
    unfold bind at 1. rewrite add_operations_run.
    unfold build_steps in Hsteps. fold last_steps in Hsteps.
    rewrite gated_app in Hsteps.
    destruct (gated env (map (add_type_operation opType) operations) [])
      as [added [e'|tr]] eqn:Hadd; [discriminate|].
    destruct (gated_done env _ _ _ _ Hadd) as [-> Htr]. cbn [List.app] in Htr.
    subst tr. cbn [fst snd gated last_steps] in *.
    unfold bind, try_catch, tb_finalize, tb, emit, ret, throw, log,
      Apis_close, reject, resolve, settle, drop_promise, return_.
    cbn.
    destruct (tb_call env (map (add_type_operation opType) operations)
                update_head_block); [discriminate|].
    destruct (tb_call env
                (map (add_type_operation opType) operations
                   ++ [update_head_block]) set_required_fees);
      [discriminate|].
    destruct (tb_call env
                ((map (add_type_operation opType) operations
                    ++ [update_head_block]) ++ [set_required_fees])
                (set_expire_seconds 7200)); [discriminate|].
    destruct (tb_call env
                (((map (add_type_operation opType) operations
                     ++ [update_head_block]) ++ [set_required_fees])
                   ++ [set_expire_seconds 7200]) finalize); [discriminate|].
    cbn. rewrite <- !app_assoc. cbn [List.app]. rewrite Hfin.
    now destruct (encode_error env _).
Qed.

(** ** Queries *)

Lemma getPortfolio_unreachable (env : Env) (chain accountID : string)
    (app : App) (e : Error) :
  connect env (getCurrentNode env chain app) = Some e ->
  promise (getPortfolio env chain accountID app)
  = mkOutcome
      [EConnect (getCurrentNode env chain app); ELog (message e);
       EChangeURL chain]
      (Some (Rejected e)).
Proof.
  intros Hconn. unfold getPortfolio. run_executor. now rewrite Hconn.
Qed.

Lemma getPortfolio_no_db_api (env : Env) (chain accountID : string)
    (app : App) :
  connect env (getCurrentNode env chain app) = None ->
  has_db_api env = false ->
  promise (getPortfolio env chain accountID app)
  = mkOutcome
      [EConnect (getCurrentNode env chain app); ELog "no db_api"; EClose;
       EChangeURL chain]
      (Some (Rejected (mkError "no db_api"))).
Proof.
  intros Hconn Hdb. unfold getPortfolio. run_executor.
  now rewrite Hconn, Hdb.
Qed.

(** C6: when either sub-query of [getPortfolio] fails (limit orders or
    balances), the promise is rejected, whatever the other one returned. *)
Theorem getPortfolio_no_partial_result (env : Env) (chain accountID : string)
    (app : App) :
  failed (db_exec env 0 "get_limit_orders_by_account"
            [JStr accountID; JNum 100]) = true
  \/ failed (db_exec env 1 "get_account_balances"
               [JStr accountID; JArr []]) = true ->
  exists e, result (promise (getPortfolio env chain accountID app))
            = Some (Rejected e).
Proof.
  intros Hfail.
  destruct (connect env (getCurrentNode env chain app)) as [e|] eqn:Hconn.
  { rewrite (getPortfolio_unreachable _ _ accountID _ _ Hconn). now exists e. }
  destruct (has_db_api env) eqn:Hdb.
  2:{ rewrite (getPortfolio_no_db_api _ _ accountID _ Hconn Hdb). cbn. eauto. }
  unfold getPortfolio. run_executor. rewrite Hconn, Hdb. cbn.
  destruct (db_exec env 0 "get_limit_orders_by_account"
              [JStr accountID; JNum 100]) as [e1 | [orders|]];
    cbn in *;
    destruct (db_exec env 1 "get_account_balances"
                [JStr accountID; JArr []]) as [e2 | [balances|]];
    cbn in *; eauto.
  destruct Hfail; discriminate.
Qed.

(** C7, as the code has it: [getPortfolio] opens one connection and asks
    for the limit orders first and for the balances second; when both come
    back nothing happens between the two calls, the session is closed
    after them and both answers are merged into one object. *)
Theorem getPortfolio_orders_then_balances (env : Env)
    (chain accountID : string) (app : App) :
  connect env (getCurrentNode env chain app) = None ->
  has_db_api env = true ->
  let node := getCurrentNode env chain app in
  let o := promise (getPortfolio env chain accountID app) in
  connects (calls o) = [node]
  /\ execs (calls o) = [limit_orders_call accountID; balances_call accountID]
  /\ (forall limitOrders balances,
        db_exec env 0 "get_limit_orders_by_account"
          [JStr accountID; JNum 100] = Returns (Some limitOrders) ->
        db_exec env 1 "get_account_balances"
          [JStr accountID; JArr []] = Returns (Some balances) ->
        calls o
        = [EConnect node;
           EExec "get_limit_orders_by_account" [JStr accountID; JNum 100];
           EExec "get_account_balances" [JStr accountID; JArr []];
           EClose]
        /\ result o
           = Some (Resolved (VValid (VJson (portfolio balances limitOrders))))).
Proof.
  intros Hconn Hdb node o. subst o node.
  unfold getPortfolio. run_executor. rewrite Hconn, Hdb. cbn.
  destruct (db_exec env 0 "get_limit_orders_by_account"
              [JStr accountID; JNum 100]) as [e1 | [orders|]];
    cbn;
    destruct (db_exec env 1 "get_account_balances"
                [JStr accountID; JArr []]) as [e2 | [balances|]];
    cbn; repeat split; intros; try discriminate.
  all: match goal with
       | H1 : Returns _ = Returns _, H2 : Returns _ = Returns _ |- _ =>
           inversion H1; inversion H2; subst; reflexivity
       end.
Qed.

(** How often [getPortfolio] closes the session it opened: once, and once
    more for every sub-query that throws. *)
Lemma getPortfolio_closes (env : Env) (chain accountID : string) (app : App) :
  connect env (getCurrentNode env chain app) = None ->
  has_db_api env = true ->
  closes (calls (promise (getPortfolio env chain accountID app)))
  = 1
    + (match db_exec env 0 "get_limit_orders_by_account"
               [JStr accountID; JNum 100]
       with Throws _ => 1 | Returns _ => 0 end)
    + (match db_exec env 1 "get_account_balances" [JStr accountID; JArr []]
       with Throws _ => 1 | Returns _ => 0 end).
Proof.
  intros Hconn Hdb. unfold getPortfolio. run_executor. rewrite Hconn, Hdb. cbn.
  destruct (db_exec env 0 "get_limit_orders_by_account"
              [JStr accountID; JNum 100]) as [e1 | [orders|]];
    cbn;
    destruct (db_exec env 1 "get_account_balances"
                [JStr accountID; JArr []]) as [e2 | [balances|]];
    reflexivity.
Qed.

(** C7 as claimed (balances first, then open orders) fails on a node that
    answers both calls. *)
Lemma getPortfolio_balances_first_counterexample :
  execs (calls (promise (getPortfolio (world up account_db offline)
                           "bitshares" "1.2.100" sample_app)))
  <> [balances_call "1.2.100"; limit_orders_call "1.2.100"].
Proof. cbv. discriminate. Qed.

Lemma accountSearch_not_found (env : Env) (chain search_string : string)
    (app : App) (rows : option (list json)) :
  connect env (getCurrentNode env chain app) = None ->
  has_db_api env = true ->
  db_exec env 0 "get_accounts" [JArr [JStr search_string]]
  = Returns rows ->
  has_length rows = false ->
  promise (accountSearch env chain search_string app)
  = mkOutcome
      [EConnect (getCurrentNode env chain app);
       EExec "get_accounts" [JArr [JStr search_string]]]
      (Some (Rejected (mkError "Couldn't retrieve account"))).
Proof.
  intros Hconn Hdb Hexec Hrows. unfold accountSearch. run_executor.
  rewrite Hconn, Hdb. cbn. rewrite Hexec. cbn.
  destruct rows as [[|first rest]|]; try discriminate; reflexivity.
Qed.

(** C2 at two failing inputs: when the account is not found
    [accountSearch] returns without closing the session it opened, and
    when the limit-order call of [getPortfolio] throws the session is
    closed twice. *)
Theorem sessions_not_closed_exactly_once :
  closes (calls (promise (accountSearch (world up empty_db offline)
                            "bitshares" "nobody" sample_app))) = 0
  /\ closes (calls (promise (getPortfolio (world up first_fails_db offline)
                               "bitshares" "1.2.100" sample_app))) = 2.
Proof. split; reflexivity. Qed.

Lemma generateDeepLink_closes_once (env : Env) (chain opType : string)
    (operations : list json) (app : App) (tr : TransactionBuilder) :
  connect env (getCurrentNode env chain app) = None ->
  snd (gated env (map (add_type_operation opType) operations) []) = inr tr ->
  closes (calls (promise (generateDeepLink env chain opType operations app)))
  = 1.
Proof.
  intros Hconn Hadd. rewrite (generateDeepLink_run _ _ _ _ _ Hconn).
  unfold deeplink_outcome.
  destruct (gated env (map (add_type_operation opType) operations) [])
    as [added [e|tr0]]; [discriminate|].
  destruct (gated env last_steps tr0) as [later [e|tr']];
    [|destruct (encode_error env _)]; cbn [calls];
    match goal with
    | |- closes (EConnect ?n :: ?t) = 1 =>
        change (closes ([EConnect n] ++ t) = 1)
    end;
    rewrite !closes_app, !closes_ETb; reflexivity.
Qed.

Lemma getAccountHistory_not_ok (env : Env) (chain accountID : string)
    (from size : option Number)
    (from_date to_date sort_by type agg_field : option string)
    (r : Response) :
  let url := history_url chain accountID from size from_date to_date sort_by
               type agg_field in
  fetch env url = FetchReturns r ->
  ok r = false ->
  promise (getAccountHistory env chain accountID from size from_date to_date
             sort_by type agg_field)
  = mkOutcome [EFetch url; ELog (status r ++ " " ++ statusText r)%string]
      None.
Proof.
  intros url Hfetch Hok. unfold getAccountHistory. fold url.
  clearbody url. run_executor.
  rewrite Hfetch. cbn. rewrite Hok. reflexivity.
Qed.

Lemma getAccountHistory_fetch_throws (env : Env) (chain accountID : string)
    (from size : option Number)
    (from_date to_date sort_by type agg_field : option string)
    (e : Error) :
  let url := history_url chain accountID from size from_date to_date sort_by
               type agg_field in
  fetch env url = FetchThrows e ->
  promise (getAccountHistory env chain accountID from size from_date to_date
             sort_by type agg_field)
  = mkOutcome
      [EFetch url; ELog (message e); ELog "Couldn't fetch account history"]
      (Some (Rejected e)).
Proof.
  intros url Hfetch. unfold getAccountHistory. fold url.
  clearbody url. run_executor.
  rewrite Hfetch. reflexivity.
Qed.

(** C9 at a failing input: on a response that is not ok
    [getAccountHistory] only logs the status, and the promise never
    settles. *)
Theorem getAccountHistory_non_ok_never_settles :
  promise (getAccountHistory (world up empty_db server_error) "bitshares"
             "1.2.100" None None None None None None None)
  = mkOutcome
      [EFetch ("https://api.bitshares.ws/openexplorer/es/account_history"
                 ++ "?account_id=1.2.100&from_=0&size=100"
                 ++ "&from_date=2015-10-10&to_date=now"
                 ++ "&sort_by=-operation_id_num&type=data"
                 ++ "&agg_field=operation_type")%string;
       ELog "500 Internal Server Error"]
      None.
Proof. reflexivity. Qed.

(** ** The chain parameter *)

Lemma isnt_other (x : option string) (lit : string) :
  x <> Some lit -> isnt x lit = true.
Proof.
  intros H. destruct x as [s|]; [|reflexivity]. simpl.
  destruct (String.eqb_spec s lit); [subst; congruence | reflexivity].
Qed.

Lemma isnt_same (x : option string) (lit : string) :
  isnt x lit = false <-> x = Some lit.
Proof.
  destruct x as [s|]; simpl.
  - destruct (String.eqb_spec s lit) as [->|Hne]; simpl; split; intros H;
      try reflexivity; try discriminate.
    inversion H. congruence.
  - split; discriminate.
Qed.

Lemma not_two_chains (c : option string) :
  ~ two_chains c ->
  isnt c "bitshares" = true /\ isnt c "bitshares_testnet" = true.
Proof.
  intros H. split; apply isnt_other; intros E; apply H; [left | right];
    exact E.
Qed.

(** C8, as the code has it: on every route with a chain parameter other
    than /cache/pools and /cache/bitassets, a chain that is neither
    "bitshares" nor "bitshares_testnet" makes the handler throw before it
    calls anything; all of them let both literals through, except
    /api/blockedAccounts, which lets through "bitshares" only. *)
Theorem chain_guard (JSON_parse : string -> option json) (r : Route) :
  r <> CachePools -> r <> CacheBitassets ->
  (forall req, ~ two_chains (chain req) ->
     exists e, handler JSON_parse r req = Refused e)
  /\ (r <> ApiBlockedAccounts ->
      (exists s j, s <> "" /\ JSON_parse s = Some j /\ truthy j = true) ->
      forall c, two_chains (Some c) ->
        exists req callee args,
          chain req = Some c /\ handler JSON_parse r req = Passed callee args)
  /\ (r = ApiBlockedAccounts ->
      forall req,
        (exists callee args, handler JSON_parse r req = Passed callee args)
        <-> chain req = Some "bitshares").
Proof.
  intros Hpools Hbitassets. split; [|split].
  - intros req Hnot. destruct (not_two_chains _ Hnot) as [H1 H2].
    destruct r; try congruence;
      unfold handler, guarded, guarded_fields, invalid_chain, missing_fields;
      rewrite ?H1, ?H2; cbn [andb orb negb];
      rewrite ?orb_true_r, ?andb_true_r, ?orb_negb_r; cbn [andb orb negb];
      split_guards; eauto.
  - intros Hblocked (s & j & Hs & Hparse & Htruthy) c Hc.
    apply String.eqb_neq in Hs.
    exists (full_request c s).
    assert (Hc1 : isnt (Some c) "bitshares" && isnt (Some c) "bitshares_testnet"
                  = false).
    { destruct Hc as [Hc|Hc]; inversion Hc; reflexivity. }
    assert (Hc2 : String.eqb c "" = false).
    { destruct Hc as [Hc|Hc]; inversion Hc; reflexivity. }
    destruct r; try congruence;
      unfold handler, guarded, guarded_fields, parse, full_request;
      cbn; rewrite ?Hs, ?Hparse, ?Hc2; cbn; rewrite ?Htruthy; cbn;
      cbn in Hc1; rewrite ?Hc1; cbn; eauto.
  - intros -> req. unfold handler. split.
    + intros (callee & args & H).
      destruct (isnt (chain req) "bitshares") eqn:E; [discriminate|].
      now apply isnt_same.
    + intros H. apply isnt_same in H. rewrite H. eauto.
Qed.

(** C8 as claimed fails: /api/blockedAccounts refuses "bitshares_testnet",
    and /cache/pools hands any chain on to the cache. *)
Lemma chain_guard_counterexample :
  ~ accepts_exactly_two_chains sample_parse ApiBlockedAccounts
  /\ ~ accepts_exactly_two_chains sample_parse CachePools.
Proof.
  split.
  - intros [_ H].
    destruct (H "bitshares_testnet" (or_intror eq_refl))
      as (req & callee & args & Hc & Hh).
    unfold handler in Hh. rewrite Hc in Hh. discriminate.
  - intros [H _].
    destruct (H (full_request "dogecoin" "[]")) as [e He].
    + intros [E|E]; discriminate.
    + discriminate.
Qed.

Lemma chain_guard_witness :
  ApiDeeplink <> CachePools /\ ApiDeeplink <> CacheBitassets
  /\ (exists e,
        handler sample_parse ApiDeeplink (full_request "dogecoin" "[]")
        = Refused e)
  /\ (exists req callee args,
        chain req = Some "bitshares_testnet"
        /\ handler sample_parse ApiDeeplink req = Passed callee args).
Proof.
  assert (H1 : ApiDeeplink <> CachePools) by discriminate.
  assert (H2 : ApiDeeplink <> CacheBitassets) by discriminate.
  destruct (chain_guard sample_parse ApiDeeplink H1 H2) as (Hrej & Hacc & _).
  split; [exact H1 | split; [exact H2 | split]].
  - apply Hrej. intros [E|E]; discriminate.
  - apply Hacc.
    + discriminate.
    + exists "[]", (JArr []). repeat split. discriminate.
    + right. reflexivity.
Defined.


(** ** The theorems at work on the sample worlds *)

Lemma getObjects_chunks_of_50_witness :
  endpoint (world up objects_db offline) "bitshares" None
  = Some "wss://node.xbts.io/ws"
  /\ connect (world up objects_db offline) "wss://node.xbts.io/ws" = None
  /\ has_db_api (world up objects_db offline) = true
  /\ map (@List.length json) (chunks_of (map JStr ids120) 50) = [50; 50; 20]
  /\ List.length
       (execs (calls (promise (getObjects (world up objects_db offline)
                                 "bitshares" (ids_json ids120) None)))) = 3.
Proof.
  pose proof (getObjects_chunks_of_50 (world up objects_db offline)
                "bitshares" (map JStr ids120) None "wss://node.xbts.io/ws"
                eq_refl eq_refl eq_refl) as H.
  cbv zeta in H. destruct H as (_ & _ & _ & Hexecs & Hsizes & _).
  split; [reflexivity | split; [reflexivity | split; [reflexivity | split]]].
  - apply Hsizes. reflexivity.
  - unfold ids_json. rewrite Hexecs. reflexivity.
Defined.

Lemma getObjects_tolerates_failed_chunks_witness :
  endpoint (world up flaky_db offline) "bitshares" None
  = Some "wss://node.xbts.io/ws"
  /\ connect (world up flaky_db offline) "wss://node.xbts.io/ws" = None
  /\ exists rows,
       result (promise (getObjects (world up flaky_db offline)
                          "bitshares" (ids_json ids120) None))
       = Some (Resolved (VJson (JArr rows)))
       /\ List.length rows = 70.
Proof.
  pose proof (getObjects_tolerates_failed_chunks (world up flaky_db offline)
                "bitshares" (map JStr ids120) None "wss://node.xbts.io/ws"
                eq_refl eq_refl) as H.
  cbv zeta in H. destruct H as (_ & _ & _ & Hfilled).
  split; [reflexivity | split; [reflexivity|]].
  eexists. split.
  - apply Hfilled. vm_compute. discriminate.
  - vm_compute. reflexivity.
Defined.

Lemma getObjects_drops_null_rows_witness :
  endpoint (world up objects_db offline) "bitshares" None
  = Some "wss://node.xbts.io/ws"
  /\ connect (world up objects_db offline) "wss://node.xbts.io/ws" = None
  /\ result (promise (getObjects (world up objects_db offline) "bitshares"
                        (ids_json ["1.2.1"; "1.2.2"; "missing"]) None))
     = Some (Resolved (VJson (JArr [JObj [("id", JStr "1.2.1")];
                                    JObj [("id", JStr "1.2.2")]])))
  /\ List.length
       (merged (world up objects_db offline) 0
          (map JArr
             (chunks_of (map JStr ["1.2.1"; "1.2.2"; "missing"]) 50))) = 2.
Proof.
  pose proof (getObjects_drops_null_rows (world up objects_db offline)
                "bitshares" (map JStr ["1.2.1"; "1.2.2"; "missing"]) None
                "wss://node.xbts.io/ws" eq_refl eq_refl) as H.
  cbv zeta in H. destruct H as (Hresult & _ & _ & _).
  split; [reflexivity | split; [reflexivity | split]].
  - exact Hresult.
  - reflexivity.
Defined.

Lemma getPortfolio_no_partial_result_witness :
  failed (db_exec (world up first_fails_db offline) 0
            "get_limit_orders_by_account" [JStr "1.2.100"; JNum 100]) = true
  /\ exists e,
       result (promise (getPortfolio (world up first_fails_db offline)
                          "bitshares" "1.2.100" sample_app))
       = Some (Rejected e).
Proof.
  split; [reflexivity|].
  apply (getPortfolio_no_partial_result (world up first_fails_db offline)
           "bitshares" "1.2.100" sample_app).
  left. reflexivity.
Defined.

Lemma getPortfolio_orders_then_balances_witness :
  connect (world up account_db offline)
    (getCurrentNode (world up account_db offline) "bitshares" sample_app)
  = None
  /\ has_db_api (world up account_db offline) = true
  /\ execs (calls (promise (getPortfolio (world up account_db offline)
                              "bitshares" "1.2.100" sample_app)))
     = [limit_orders_call "1.2.100"; balances_call "1.2.100"].
Proof.
  pose proof (getPortfolio_orders_then_balances (world up account_db offline)
                "bitshares" "1.2.100" sample_app eq_refl eq_refl) as H.
  cbv zeta in H. destruct H as (_ & Hexecs & _).
  split; [reflexivity | split; [reflexivity | exact Hexecs]].
Defined.

Lemma getObjects_without_app_uses_first_node_witness :
  chains (world down objects_db offline) "bitshares"
  = Some [mkNode "wss://node.xbts.io/ws"; mkNode "wss://api.bts.mobi/ws"]
  /\ calls (promise (getObjects (world down objects_db offline) "bitshares"
                       (ids_json ["1.2.1"]) None))
     = [EConnect "wss://node.xbts.io/ws"; ELog "connect ECONNREFUSED"; EClose]
  /\ rotations
       (calls (promise (getObjects (world down objects_db offline)
                          "bitshares" (ids_json ["1.2.1"])
                          (Some sample_app))))
     = ["bitshares"].
Proof.
  pose proof (getObjects_without_app_uses_first_node
                (world down objects_db offline) "bitshares"
                (ids_json ["1.2.1"])
                (mkNode "wss://node.xbts.io/ws")
                [mkNode "wss://api.bts.mobi/ws"] eq_refl) as H.
  cbv zeta in H. destruct H as (_ & _ & Hfails & Hrotates).
  split; [reflexivity | split].
  - apply (Hfails (mkError "connect ECONNREFUSED")). reflexivity.
  - apply (Hrotates sample_app).
Defined.

(** * Further properties *)

(** ** More on chunking *)

Lemma chunk_list_step {A} (n : nat) (arr : list A) (size i : nat) :
  i < List.length arr ->
  chunk_list (S n) arr size i []
  = firstn size (skipn i arr) :: chunk_list n arr size (i + size) [].
Proof.
  intros Hlt. simpl. destruct (Nat.ltb_spec i (List.length arr)); [|lia].
  rewrite chunk_list_acc, slice_step. reflexivity.
Qed.

Lemma chunk_list_stop {A} (n : nat) (arr : list A) (size i : nat) :
  List.length arr <= i -> chunk_list n arr size i [] = [].
Proof.
  intros Hge. destruct n as [|n]; simpl; [reflexivity|].
  destruct (Nat.ltb_spec i (List.length arr)); [lia | reflexivity].
Qed.

Lemma ceil_div_step (m size : nat) :
  0 < size -> 0 < m -> ceil_div m size = S (ceil_div (m - size) size).
Proof.
  intros Hsize Hm. unfold ceil_div.
  destruct (Nat.le_gt_cases size m) as [Hle | Hlt].
  - replace (m + size - 1) with ((m - size + size - 1) + 1 * size) by lia.
    rewrite Nat.div_add by lia. lia.
  - replace (m - size) with 0 by lia. simpl.
    rewrite (Nat.div_small (size - 1) size) by lia.
    symmetry. apply (Nat.div_unique (m + size - 1) size 1 (m - 1)); lia.
Qed.

Lemma chunk_list_count {A} (arr : list A) (size : nat) :
  0 < size ->
  forall n i,
    List.length arr - i <= n ->
    List.length (chunk_list n arr size i [])
    = ceil_div (List.length arr - i) size.
Proof.
  intros Hsize. induction n as [|n IH]; intros i Hn.
  - simpl. replace (List.length arr - i) with 0 by lia.
    unfold ceil_div. simpl. symmetry. apply Nat.div_small. lia.
  - destruct (Nat.lt_ge_cases i (List.length arr)) as [Hlt | Hge].
    + rewrite chunk_list_step by exact Hlt. simpl. rewrite IH by lia.
      rewrite (ceil_div_step (List.length arr - i) size) by lia.
      f_equal. f_equal. lia.
    + rewrite chunk_list_stop by exact Hge.
      replace (List.length arr - i) with 0 by lia.
      unfold ceil_div. simpl. symmetry. apply Nat.div_small. lia.
Qed.

Lemma chunk_list_window {A} (arr : list A) (size : nat) :
  forall n i k,
    k < List.length (chunk_list n arr size i []) ->
    nth k (chunk_list n arr size i []) []
    = firstn size (skipn (i + k * size) arr).
Proof.
  induction n as [|n IH]; intros i k Hk.
  - simpl in Hk. lia.
  - destruct (Nat.lt_ge_cases i (List.length arr)) as [Hlt | Hge].
    + rewrite chunk_list_step in * by exact Hlt.
      destruct k as [|k]; simpl.
      * now rewrite Nat.add_0_r.
      * simpl in Hk. rewrite IH by lia. f_equal. f_equal. lia.
    + rewrite chunk_list_stop in Hk by exact Hge. simpl in Hk. lia.
Qed.

Lemma chunks_of_count {A} (arr : list A) (size : nat) :
  0 < size ->
  List.length (chunks_of arr size) = ceil_div (List.length arr) size.
Proof.
  intros Hsize. unfold chunks_of. rewrite chunk_list_count by lia.
  now rewrite Nat.sub_0_r.
Qed.

(** X1: for a positive size [_sliceIntoChunks] returns, the chunks put
    together give the array back, every chunk has between 1 and [size]
    elements, and there are [ceil(length / size)] of them. *)
Theorem sliceIntoChunks_partition {A} (arr : list A) (size : nat) :
  0 < size ->
  exists chunks,
    _sliceIntoChunks arr size = Some chunks
    /\ List.concat chunks = arr
    /\ Forall (fun c => 1 <= List.length c <= size) chunks
    /\ List.length chunks = ceil_div (List.length arr) size.
Proof.
  intros Hsize. exists (chunks_of arr size). split; [|split; [|split]].
  - now apply sliceIntoChunks_returns.
  - now apply sliceIntoChunks_concat.
  - now apply sliceIntoChunks_bounds.
  - now apply chunks_of_count.
Qed.

Lemma sliceIntoChunks_partition_witness :
  0 < 2
  /\ _sliceIntoChunks ["a"; "b"; "c"; "d"; "e"] 2
     = Some [["a"; "b"]; ["c"; "d"]; ["e"]]
  /\ exists chunks,
       _sliceIntoChunks ["a"; "b"; "c"; "d"; "e"] 2 = Some chunks
       /\ List.length chunks = 3.
Proof.
  destruct (sliceIntoChunks_partition ["a"; "b"; "c"; "d"; "e"] 2
              (Nat.lt_0_succ 1)) as (chunks & Hsome & _ & _ & Hcount).
  split; [lia | split; [reflexivity|]].
  exists chunks. split; [exact Hsome | exact Hcount].
Defined.

(** X2: for a positive size, chunk number [k] is the window of [size]
    elements that starts at index [k * size], and every chunk that is not
    the last one is full; with size 0 the loop never ends on a non-empty
    array, however many rounds it is given. *)
Theorem sliceIntoChunks_windows {A} (arr : list A) (size : nat) :
  (0 < size ->
   exists chunks,
     _sliceIntoChunks arr size = Some chunks
     /\ forall k,
          k < List.length chunks ->
          nth k chunks [] = firstn size (skipn (k * size) arr)
          /\ (S k < List.length chunks ->
              List.length (nth k chunks []) = size))
  /\ (size = 0 -> arr <> [] ->
      _sliceIntoChunks arr size = None
      /\ forall rounds, chunk_loop rounds arr size 0 [] = None).
Proof.
  split.
  - intros Hsize. exists (chunks_of arr size).
    split; [now apply sliceIntoChunks_returns|].
    intros k Hk.
    assert (Hwin : nth k (chunks_of arr size) []
                   = firstn size (skipn (k * size) arr)).
    { unfold chunks_of in *. now rewrite chunk_list_window. }
    split; [exact Hwin|].
    intros Hnext. rewrite Hwin, length_firstn, length_skipn.
    rewrite chunks_of_count in Hnext by exact Hsize.
    unfold ceil_div in Hnext.
    assert (Hdiv : S (S k) * size <= List.length arr + size - 1).
    { assert (H := Nat.Div0.mul_div_le (List.length arr + size - 1) size).
      nia. }
    simpl in Hdiv. lia.
  - intros -> Hne.
    assert (Hlen : 0 < List.length arr)
      by (destruct arr; [congruence | simpl; lia]).
    split; [unfold _sliceIntoChunks|intros rounds];
      now apply chunk_loop_never_ends.
Qed.

Lemma sliceIntoChunks_windows_witness :
  0 < 50
  /\ exists chunks,
       _sliceIntoChunks ids120 50 = Some chunks
       /\ nth 1 chunks [] = firstn 50 (skipn 50 ids120).
Proof.
  assert (H50 : 0 < 50) by lia.
  destruct (proj1 (sliceIntoChunks_windows ids120 50) H50)
    as (chunks & Hsome & Hwin).
  split; [exact H50|]. exists chunks. split; [exact Hsome|].
  apply (Hwin 1).
  assert (E : Some chunks = Some (chunks_of ids120 50))
    by (rewrite <- Hsome; now apply sliceIntoChunks_returns).
  inversion E. vm_compute. lia.
Defined.

(** ** More on the batch object fetch *)

(** X3: on an empty ID list [getObjects] asks the node nothing, closes the
    session and rejects with the no-objects error. *)
Theorem getObjects_empty_list (env : Env) (chain : string)
    (app : option App) (node : string) :
  endpoint env chain app = Some node ->
  connect env node = None ->
  promise (getObjects env chain (JArr []) app)
  = mkOutcome [EConnect node; EClose]
      (Some (Rejected (mkError "Couldn't retrieve objects"))).
Proof.
  intros Hnode Hconn.
  now rewrite (getObjects_connected env chain (JArr []) app node Hnode Hconn).
Qed.

Lemma getObjects_empty_list_witness :
  endpoint (world up objects_db offline) "bitshares_testnet" None
  = Some "wss://testnet.xbts.io/ws"
  /\ calls (promise (getObjects (world up objects_db offline)
                       "bitshares_testnet" (JArr []) None))
     = [EConnect "wss://testnet.xbts.io/ws"; EClose].
Proof.
  split; [reflexivity|].
  now rewrite (getObjects_empty_list (world up objects_db offline)
                 "bitshares_testnet" None "wss://testnet.xbts.io/ws"
                 eq_refl eq_refl).
Defined.

(** X4: without [app], a chain that has no static node list, or an empty
    one, makes the executor throw before it connects: nothing goes out and
    the promise never settles. *)
Theorem getObjects_unconfigured_chain (env : Env) (chain : string)
    (object_ids : json) :
  chains env chain = None \/ chains env chain = Some [] ->
  promise (getObjects env chain object_ids None) = mkOutcome [] None.
Proof.
  intros H. unfold promise, getObjects, first_node, bind, throw.
  destruct H as [-> | ->]; reflexivity.
Qed.

Lemma getObjects_unconfigured_chain_witness :
  chains (world up objects_db offline) "steem" = None
  /\ result (promise (getObjects (world up objects_db offline) "steem"
                        (ids_json ["1.2.1"]) None)) = None.
Proof.
  split; [reflexivity|].
  now rewrite (getObjects_unconfigured_chain (world up objects_db offline)
                 "steem" (ids_json ["1.2.1"]) (or_introl eq_refl)).
Defined.

(** X5: given an array of IDs, [getObjects] calls [Apis.close()] exactly
    once whenever a node could be picked, whether the connection came up
    or not and whatever the chunks did.  Given null, which the route hands
    over unchecked, it throws after connecting, outside any [try]: the
    session is never closed and the promise never settles. *)
Theorem getObjects_closes_once (env : Env) (chain : string)
    (object_ids : json) (app : option App) (node : string) :
  endpoint env chain app = Some node ->
  let o := promise (getObjects env chain object_ids app) in
  (forall items, object_ids = JArr items -> closes (calls o) = 1)
  /\ (object_ids = JNull -> connect env node = None ->
      o = mkOutcome [EConnect node] None)
  /\ (forall e, connect env node = Some e -> closes (calls o) = 1).
Proof.
  intros Hnode o. subst o.
  assert (Hdown : forall e, connect env node = Some e ->
            closes (calls (promise (getObjects env chain object_ids app)))
            = 1).
  { intros e Hconn.
    rewrite (getObjects_unreachable env chain object_ids app node e
               Hnode Hconn).
    now destruct app. }
  split; [|split; [|exact Hdown]].
  - intros items ->. destruct (connect env node) as [e|] eqn:Hconn.
    + now apply (Hdown e).
    + rewrite (getObjects_connected env chain (JArr items) app node
                 Hnode Hconn).
      cbn [input_chunks calls].
      now destruct (connected_trace env node
                      (map JArr (chunks_of items 50))) as (_ & _ & _ & H).
  - intros -> Hconn.
    now rewrite (getObjects_connected env chain JNull app node Hnode Hconn).
Qed.

Lemma getObjects_closes_once_witness :
  endpoint (world up flaky_db offline) "bitshares" (Some sample_app)
  = Some "wss://api.bts.mobi/ws"
  /\ closes (calls (promise (getObjects (world up flaky_db offline)
                               "bitshares" (ids_json ids120)
                               (Some sample_app)))) = 1
  /\ closes (calls (promise (getObjects (world up flaky_db offline)
                               "bitshares" JNull (Some sample_app)))) = 0.
Proof.
  pose proof (getObjects_closes_once (world up flaky_db offline) "bitshares"
                (ids_json ids120) (Some sample_app) "wss://api.bts.mobi/ws"
                eq_refl) as H.
  pose proof (getObjects_closes_once (world up flaky_db offline) "bitshares"
                JNull (Some sample_app) "wss://api.bts.mobi/ws"
                eq_refl) as H'.
  cbv zeta in H, H'. destruct H as (Harr & _). destruct H' as (_ & Hnull & _).
  split; [reflexivity | split].
  - exact (Harr (map JStr ids120) eq_refl).
  - now rewrite (Hnull eq_refl eq_refl).
Defined.

Lemma merged_all_fail (env : Env) :
  has_db_api env = false
  \/ (forall n c, exists e,
        db_exec env n "get_objects" [c; JBool false] = Throws e) ->
  forall chunks n,
    merged env n chunks = []
    /\ List.length (logs (chunks_trace env n chunks)) = List.length chunks.
Proof.
  intros [Hdb | Hall] chunks.
  - intros n. split; [now apply merged_no_db|].
    now apply logs_chunks_trace_no_db.
  - induction chunks as [|c rest IH]; intros n;
      cbn [merged chunks_trace]; [now split|].
    destruct (IH (S n)) as [Hm Hl]. destruct (Hall n c) as [e He].
    unfold chunk_rows, chunk_events. rewrite He, Hm.
    rewrite logs_app, length_app, Hl.
    now destruct (has_db_api env).
Qed.

(** X6: when every chunk fails, because each call throws or because the
    node has no database API, all chunks are still gone through, each
    failure is logged, and the promise is rejected with the no-objects
    error; one call per chunk is sent in the first case and none in the
    second. *)
Theorem getObjects_all_chunks_fail (env : Env) (chain : string)
    (ids : list json) (app : option App) (node : string) :
  endpoint env chain app = Some node ->
  connect env node = None ->
  has_db_api env = false
  \/ (forall n c, exists e,
        db_exec env n "get_objects" [c; JBool false] = Throws e) ->
  let o := promise (getObjects env chain (JArr ids) app) in
  result o = Some (Rejected (mkError "Couldn't retrieve objects"))
  /\ List.length (logs (calls o)) = ceil_div (List.length ids) 50
  /\ List.length (execs (calls o))
     = if has_db_api env then ceil_div (List.length ids) 50 else 0.
Proof.
  intros Hnode Hconn Hall o. subst o.
  rewrite (getObjects_connected env chain (JArr ids) app node Hnode Hconn).
  cbn [input_chunks calls result].
  set (sent := map JArr (chunks_of ids 50)).
  destruct (merged_all_fail env Hall sent 0) as [Hm Hl].
  destruct (connected_trace env node sent) as (Hexecs & _).
  assert (Hcount : List.length sent = ceil_div (List.length ids) 50).
  { unfold sent. rewrite length_map. apply chunks_of_count. lia. }
  rewrite Hm, Hexecs. split; [reflexivity | split].
  - change (EConnect node :: chunks_trace env 0 sent ++ [EClose])
      with ([EConnect node] ++ chunks_trace env 0 sent ++ [EClose]).
    rewrite !logs_app, !length_app, Hl, Hcount. cbn. lia.
  - destruct (has_db_api env); [|reflexivity].
    now rewrite length_map.
Qed.

Lemma getObjects_all_chunks_fail_witness :
  endpoint (world up dead_db offline) "bitshares" None
  = Some "wss://node.xbts.io/ws"
  /\ result (promise (getObjects (world up dead_db offline) "bitshares"
                        (ids_json ids120) None))
     = Some (Rejected (mkError "Couldn't retrieve objects"))
  /\ List.length (logs (calls (promise (getObjects (world up dead_db offline)
                                          "bitshares" (ids_json ids120)
                                          None)))) = 3
  /\ execs (calls (promise (getObjects
                              (world_of up false objects_db easy_builder
                                 encodes offline)
                              "bitshares" (ids_json ids120) None))) = [].
Proof.
  assert (Hall : forall (n : nat) (c : json), exists e,
             db_exec (world up dead_db offline) n "get_objects"
               [c; JBool false] = Throws e).
  { intros n c. now exists (mkError "timeout"). }
  pose proof (getObjects_all_chunks_fail (world up dead_db offline)
                "bitshares" (map JStr ids120) None "wss://node.xbts.io/ws"
                eq_refl eq_refl (or_intror Hall)) as H.
  pose proof (getObjects_all_chunks_fail
                (world_of up false objects_db easy_builder encodes offline)
                "bitshares" (map JStr ids120) None "wss://node.xbts.io/ws"
                eq_refl eq_refl (or_introl eq_refl)) as H'.
  cbv zeta in H, H'. destruct H as (Hres & Hlogs & _).
  destruct H' as (_ & _ & Hnone).
  split; [reflexivity | split; [exact Hres | split; [exact Hlogs|]]].
  apply length_zero_iff_nil. exact Hnone.
Defined.

(** ** More on the transaction orchestrator *)

(** X7: when the connection fails [generateDeepLink] logs, rotates the
    node order and rejects with the error; the builder is never called and
    nothing is closed. *)
Theorem generateDeepLink_unreachable (env : Env) (chain opType : string)
    (operations : list json) (app : App) (e : Error) :
  connect env (getCurrentNode env chain app) = Some e ->
  promise (generateDeepLink env chain opType operations app)
  = mkOutcome
      [EConnect (getCurrentNode env chain app); ELog (message e);
       EChangeURL chain]
      (Some (Rejected e)).
Proof.
  intros Hconn. unfold generateDeepLink. run_executor. now rewrite Hconn.
Qed.

Lemma generateDeepLink_unreachable_witness :
  connect (world down empty_db offline)
    (getCurrentNode (world down empty_db offline) "bitshares" sample_app)
  = Some (mkError "connect ECONNREFUSED")
  /\ builder_calls
       (calls (promise (generateDeepLink (world down empty_db offline)
                          "bitshares" "transfer" [swap_operation]
                          sample_app))) = [].
Proof.
  split; [reflexivity|].
  now rewrite (generateDeepLink_unreachable (world down empty_db offline)
                 "bitshares" "transfer" [swap_operation] sample_app
                 (mkError "connect ECONNREFUSED") eq_refl).
Defined.

(** X8: once connected, and when the builder takes every payload,
    [generateDeepLink] settles its promise and closes the session exactly
    once, whichever of the later steps fails or none. *)
Theorem generateDeepLink_session_closed_once (env : Env)
    (chain opType : string) (operations : list json) (app : App)
    (tr : TransactionBuilder) :
  connect env (getCurrentNode env chain app) = None ->
  snd (gated env (map (add_type_operation opType) operations) []) = inr tr ->
  let o := promise (generateDeepLink env chain opType operations app) in
  closes (calls o) = 1 /\ result o <> None.
Proof.
  intros Hconn Hadd o. subst o. split.
  - exact (generateDeepLink_closes_once env chain opType operations app tr
             Hconn Hadd).
  - rewrite (generateDeepLink_run env chain opType operations app Hconn).
    unfold deeplink_outcome.
    destruct (gated env (map (add_type_operation opType) operations) [])
      as [added [e|tr0]]; [discriminate|].
    destruct (gated env last_steps tr0) as [later [e|tr']];
      [|destruct (encode_error env _)]; discriminate.
Qed.

Lemma generateDeepLink_session_closed_once_witness :
  connect (world_of up true empty_db feeless_builder encodes offline)
    (getCurrentNode (world_of up true empty_db feeless_builder encodes offline)
       "bitshares" sample_app) = None
  /\ closes
       (calls (promise (generateDeepLink
                          (world_of up true empty_db feeless_builder encodes
                             offline)
                          "bitshares" "transfer" [swap_operation]
                          sample_app))) = 1
  /\ result (promise (generateDeepLink
                        (world_of up true empty_db feeless_builder encodes
                           offline)
                        "bitshares" "transfer" [swap_operation] sample_app))
     = Some (Rejected (mkError "fee schedule unavailable")).
Proof.
  pose proof (generateDeepLink_session_closed_once
                (world_of up true empty_db feeless_builder encodes offline)
                "bitshares" "transfer" [swap_operation] sample_app
                [add_type_operation "transfer" swap_operation]
                eq_refl eq_refl) as H.
  cbv zeta in H. destruct H as (Hcloses & _).
  split; [reflexivity | split; [exact Hcloses | reflexivity]].
Defined.

Lemma gated_adds_only (env : Env) (opType : string) :
  forall operations tr,
    Forall (fun c => exists op, c = add_type_operation opType op)
      (fst (gated env (map (add_type_operation opType) operations) tr)).
Proof.
  induction operations as [|op rest IH]; intros tr; simpl; [constructor|].
  destruct (tb_call env tr (add_type_operation opType op)).
  - constructor; [now exists op | constructor].
  - specialize (IH (tr ++ [add_type_operation opType op])).
    destruct (gated env (map (add_type_operation opType) rest)
                (tr ++ [add_type_operation opType op])) as [st r].
    simpl in *. constructor; [now exists op | exact IH].
Qed.

(** X9: when the builder refuses a payload, the exception leaves the
    executor: the promise never settles, the session stays open and no
    step after the additions is started. *)
Theorem generateDeepLink_refused_payload (env : Env) (chain opType : string)
    (operations : list json) (app : App) (e : Error) :
  connect env (getCurrentNode env chain app) = None ->
  snd (gated env (map (add_type_operation opType) operations) []) = inl e ->
  let o := promise (generateDeepLink env chain opType operations app) in
  result o = None
  /\ closes (calls o) = 0
  /\ Forall (fun c => exists op, c = add_type_operation opType op)
       (builder_calls (calls o)).
Proof.
  intros Hconn Hadd o. subst o.
  rewrite (generateDeepLink_run env chain opType operations app Hconn).
  unfold deeplink_outcome.
  pose proof (gated_adds_only env opType operations []) as Hadds.
  destruct (gated env (map (add_type_operation opType) operations) [])
    as [added [e'|tr]]; [|discriminate].
  cbn [calls result fst] in *. split; [reflexivity | split].
  - change (closes ([EConnect (getCurrentNode env chain app)]
                      ++ map ETb added) = 0).
    now rewrite closes_app, closes_ETb.
  - rewrite builder_calls_cons_connect, builder_calls_ETb. exact Hadds.
Qed.

Lemma generateDeepLink_refused_payload_witness :
  snd (gated (world_of up true empty_db picky_builder encodes offline)
         (map (add_type_operation "transfr") [swap_operation]) [])
  = inl (mkError "Unknown operation")
  /\ result (promise (generateDeepLink
                        (world_of up true empty_db picky_builder encodes
                           offline)
                        "bitshares" "transfr" [swap_operation] sample_app))
     = None
  /\ closes (calls (promise (generateDeepLink
                               (world_of up true empty_db picky_builder
                                  encodes offline)
                               "bitshares" "transfr" [swap_operation]
                               sample_app))) = 0.
Proof.
  pose proof (generateDeepLink_refused_payload
                (world_of up true empty_db picky_builder encodes offline)
                "bitshares" "transfr" [swap_operation] sample_app
                (mkError "Unknown operation") eq_refl eq_refl) as H.
  cbv zeta in H. destruct H as (Hres & Hcloses & _).
  split; [reflexivity | split; [exact Hres | exact Hcloses]].
Defined.

(** X10: whatever [generateDeepLink] resolves with is an encoded request of
    type api with the generated id and the chain tag BTS for the chain
    bitshares, TEST for any other; by then every build step has been
    called on the draft, in order, and the session closed once. *)
Theorem generateDeepLink_envelope (env : Env) (chain opType : string)
    (operations : list json) (app : App) (v : Value) :
  connect env (getCurrentNode env chain app) = None ->
  let o := promise (generateDeepLink env chain opType operations app) in
  result o = Some (Resolved v) ->
  (exists request,
     v = VEncoded request
     /\ type_ request = "api"
     /\ id request = uuidv4 env
     /\ (chain = "bitshares" -> chainTag (payload request) = "BTS")
     /\ (chain <> "bitshares" -> chainTag (payload request) = "TEST"))
  /\ builder_calls (calls o) = build_steps opType operations
  /\ closes (calls o) = 1.
Proof.
  intros Hconn o Hres. subst o.
  rewrite (generateDeepLink_run env chain opType operations app Hconn) in *.
  unfold deeplink_outcome in *.
  destruct (gated env (map (add_type_operation opType) operations) [])
    as [added [e|tr]] eqn:Hadd; [discriminate|].
  destruct (gated env last_steps tr) as [later [e|tr']] eqn:Hlast;
    [discriminate|].
  destruct (encode_error env (deeplink_request env chain tr'));
    [discriminate|].
  cbn [result calls] in *. inversion Hres; subst v.
  destruct (gated_done env _ _ _ _ Hadd) as [-> _].
  destruct (gated_done env _ _ _ _ Hlast) as [-> _].
  split; [|split].
  - eexists. split; [reflexivity|]. cbn. unfold if_bitshares.
    repeat split.
    + intros ->. reflexivity.
    + intros Hne. apply String.eqb_neq in Hne. now rewrite Hne.
  - rewrite builder_calls_cons_connect, !builder_calls_app,
      !builder_calls_ETb. unfold build_steps, last_steps. cbn.
    now rewrite ?app_nil_r.
  - match goal with
    | |- closes (EConnect ?n :: ?t) = 1 =>
        change (closes ([EConnect n] ++ t) = 1)
    end.
    now rewrite !closes_app, !closes_ETb.
Qed.

Lemma generateDeepLink_envelope_witness :
  connect (world up empty_db offline)
    (getCurrentNode (world up empty_db offline) "bitshares_testnet"
       sample_app) = None
  /\ exists request,
       result (promise (generateDeepLink (world up empty_db offline)
                          "bitshares_testnet" "transfer" [swap_operation]
                          sample_app))
       = Some (Resolved (VEncoded request))
       /\ chainTag (payload request) = "TEST".
Proof.
  split; [reflexivity|].
  pose proof (generateDeepLink_envelope (world up empty_db offline)
                "bitshares_testnet" "transfer" [swap_operation] sample_app
                _ eq_refl eq_refl) as H.
  destruct H as ((request & Hv & _ & _ & _ & Htest) & _).
  exists request. split.
  - now rewrite <- Hv.
  - apply Htest. discriminate.
Defined.

(** X11: when all steps succeed but the encoding throws, the session has
    already been closed, the error is logged and the promise rejected with
    it. *)
Theorem generateDeepLink_encode_failure (env : Env) (chain opType : string)
    (operations : list json) (app : App) (e : Error) :
  connect env (getCurrentNode env chain app) = None ->
  snd (gated env (build_steps opType operations) []) 
  = inr (build_steps opType operations) ->
  encode_error env (deeplink_request env chain
                      (build_steps opType operations)) = Some e ->
  promise (generateDeepLink env chain opType operations app)
  = mkOutcome
      (EConnect (getCurrentNode env chain app)
         :: map ETb (build_steps opType operations)
         ++ [EClose; ELog (message e)])
      (Some (Rejected e)).
Proof.
  intros Hconn Hsteps Henc.
  rewrite (generateDeepLink_run env chain opType operations app Hconn).
  unfold deeplink_outcome. unfold build_steps in Hsteps.
  fold last_steps in Hsteps. rewrite gated_app in Hsteps.
  destruct (gated env (map (add_type_operation opType) operations) [])
    as [added [e'|tr]] eqn:Hadd; [discriminate|].
  destruct (gated env last_steps tr) as [later [e'|tr']] eqn:Hlast;
    [discriminate|].
  destruct (gated_done env _ _ _ _ Hadd) as [-> ->].
  destruct (gated_done env _ _ _ _ Hlast) as [-> ->].
  cbn [List.app] in *. fold (build_steps opType operations) in *.
  unfold build_steps at 1 in Henc. fold last_steps in Henc.
  rewrite Henc. unfold build_steps. fold last_steps.
  now rewrite map_app, <- app_assoc.
Qed.

Lemma generateDeepLink_encode_failure_witness :
  encode_error (world_of up true empty_db easy_builder malformed offline)
    (deeplink_request
       (world_of up true empty_db easy_builder malformed offline) "bitshares"
       (build_steps "transfer" [swap_operation]))
  = Some (mkError "URI malformed")
  /\ result (promise (generateDeepLink
                        (world_of up true empty_db easy_builder malformed
                           offline)
                        "bitshares" "transfer" [swap_operation] sample_app))
     = Some (Rejected (mkError "URI malformed")).
Proof.
  split; [reflexivity|].
  now rewrite (generateDeepLink_encode_failure
                 (world_of up true empty_db easy_builder malformed offline)
                 "bitshares" "transfer" [swap_operation] sample_app
                 (mkError "URI malformed") eq_refl eq_refl eq_refl).
Defined.

(** ** More on the queries *)

(** X12: when the node cannot be reached, each of the seven entry points
    that take [app] logs the error, rotates the node order once and
    rejects with that error; it sends no request and closes nothing. *)
Theorem queries_unreachable (env : Env) (chain a b : string) (limit : Z)
    (app : App) (e : Error) :
  connect env (getCurrentNode env chain app) = Some e ->
  let gone := unreachable_outcome (getCurrentNode env chain app) chain e in
  promise (getBlockedAccounts env chain app) = gone
  /\ promise (accountSearch env chain a app) = gone
  /\ promise (getFullAccounts env chain a app) = gone
  /\ promise (getAccountBalances env chain a app) = gone
  /\ promise (getLimitOrders env chain a limit app) = gone
  /\ promise (fetchOrderBook env chain a b app) = gone
  /\ promise (getPortfolio env chain a app) = gone.
Proof.
  intros Hconn gone. subst gone. unfold unreachable_outcome.
  repeat split;
    [ unfold getBlockedAccounts | unfold accountSearch
    | unfold getFullAccounts | unfold getAccountBalances
    | unfold getLimitOrders | unfold fetchOrderBook | unfold getPortfolio ];
    run_executor; now rewrite Hconn.
Qed.

Lemma queries_unreachable_witness :
  connect (world down account_db offline)
    (getCurrentNode (world down account_db offline) "bitshares" sample_app)
  = Some (mkError "connect ECONNREFUSED")
  /\ calls (promise (accountSearch (world down account_db offline)
                       "bitshares" "committee-account" sample_app))
     = [EConnect "wss://api.bts.mobi/ws"; ELog "connect ECONNREFUSED";
        EChangeURL "bitshares"].
Proof.
  pose proof (queries_unreachable (world down account_db offline)
                "bitshares" "committee-account" "1.3.0" 100 sample_app
                (mkError "connect ECONNREFUSED") eq_refl) as H.
  cbv zeta in H. destruct H as (_ & Hsearch & _).
  split; [reflexivity|]. now rewrite Hsearch.
Defined.

(** X13: on a node without database API the five guarded queries send no
    request, close the session once, rotate the node order and reject with
    "no db_api"; [getBlockedAccounts] does the same without rotating. *)
Theorem queries_without_db_api (env : Env) (chain a : string) (limit : Z)
    (app : App) :
  connect env (getCurrentNode env chain app) = None ->
  has_db_api env = false ->
  let node := getCurrentNode env chain app in
  let rotated :=
    mkOutcome [EConnect node; ELog "no db_api"; EClose; EChangeURL chain]
      (Some (Rejected (mkError "no db_api"))) in
  promise (getBlockedAccounts env chain app)
  = mkOutcome [EConnect node; ELog "no db_api"; EClose]
      (Some (Rejected (mkError "no db_api")))
  /\ promise (accountSearch env chain a app) = rotated
  /\ promise (getFullAccounts env chain a app) = rotated
  /\ promise (getAccountBalances env chain a app) = rotated
  /\ promise (getLimitOrders env chain a limit app) = rotated
  /\ promise (getPortfolio env chain a app) = rotated.
Proof.
  intros Hconn Hdb node rotated. subst node rotated.
  repeat split;
    [ unfold getBlockedAccounts | unfold accountSearch
    | unfold getFullAccounts | unfold getAccountBalances
    | unfold getLimitOrders | unfold getPortfolio ];
    run_executor; now rewrite Hconn, Hdb.
Qed.

Lemma queries_without_db_api_witness :
  has_db_api (world_of up false account_db easy_builder encodes offline)
  = false
  /\ execs (calls (promise (getPortfolio
                              (world_of up false account_db easy_builder
                                 encodes offline)
                              "bitshares" "1.2.100" sample_app))) = []
  /\ closes (calls (promise (getPortfolio
                               (world_of up false account_db easy_builder
                                  encodes offline)
                               "bitshares" "1.2.100" sample_app))) = 1.
Proof.
  pose proof (queries_without_db_api
                (world_of up false account_db easy_builder encodes offline)
                "bitshares" "1.2.100" 100 sample_app eq_refl eq_refl) as H.
  cbv zeta in H. destruct H as (_ & _ & _ & _ & _ & Hp).
  split; [reflexivity|]. now rewrite Hp.
Defined.

(** X14: [accountSearch] resolves with the first account of the answer,
    closing the session once; when the call throws it closes once and the
    caller gets the thrown error, the later not-found rejection being
    ignored. *)
Theorem accountSearch_outcomes (env : Env) (chain search_string : string)
    (app : App) :
  connect env (getCurrentNode env chain app) = None ->
  has_db_api env = true ->
  let node := getCurrentNode env chain app in
  let call := EExec "get_accounts" [JArr [JStr search_string]] in
  (forall first rest,
     db_exec env 0 "get_accounts" [JArr [JStr search_string]]
     = Returns (Some (first :: rest)) ->
     promise (accountSearch env chain search_string app)
     = mkOutcome [EConnect node; call; EClose]
         (Some (Resolved (VValid (VJson first)))))
  /\ (forall e,
        db_exec env 0 "get_accounts" [JArr [JStr search_string]] = Throws e ->
        promise (accountSearch env chain search_string app)
        = mkOutcome [EConnect node; call; ELog (message e); EClose]
            (Some (Rejected e))).
Proof.
  intros Hconn Hdb node call. subst node call.
  split; intros; unfold accountSearch; run_executor;
    rewrite Hconn, Hdb; cbn; rewrite H; reflexivity.
Qed.

Lemma accountSearch_outcomes_witness :
  has_db_api (world up account_db offline) = true
  /\ result (promise (accountSearch (world up account_db offline)
                        "bitshares" "committee-account" sample_app))
     = Some (Resolved (VValid (VJson (JObj [("id", JStr "1.7.1")])))).
Proof.
  pose proof (accountSearch_outcomes (world up account_db offline)
                "bitshares" "committee-account" sample_app
                eq_refl eq_refl) as H.
  cbv zeta in H. destruct H as (Hfound & _).
  split; [reflexivity|].
  now rewrite (Hfound (JObj [("id", JStr "1.7.1")]) [] eq_refl).
Defined.

(** X15: [getFullAccounts], [getAccountBalances] and [getLimitOrders]
    resolve with a non-empty answer, reject with their not-found message on
    an empty or missing one, and on a throwing call reject with the thrown
    error and call [Apis.close()] twice. *)
Theorem filled_queries_outcome (env : Env) (chain accountID : string)
    (limit : Z) (app : App) :
  connect env (getCurrentNode env chain app) = None ->
  has_db_api env = true ->
  let node := getCurrentNode env chain app in
  promise (getFullAccounts env chain accountID app)
  = filled_query_outcome node
      (EExec "get_full_accounts" [JArr [JStr accountID]; JBool false])
      "Committee account details not found"
      (db_exec env 0 "get_full_accounts" [JArr [JStr accountID]; JBool false])
  /\ promise (getAccountBalances env chain accountID app)
     = filled_query_outcome node
         (EExec "get_account_balances" [JStr accountID; JArr []])
         "Account balances not found"
         (db_exec env 0 "get_account_balances" [JStr accountID; JArr []])
  /\ promise (getLimitOrders env chain accountID limit app)
     = filled_query_outcome node
         (EExec "get_limit_orders_by_account" [JStr accountID; JNum limit])
         "Account balances not found"
         (db_exec env 0 "get_limit_orders_by_account"
            [JStr accountID; JNum limit]).
Proof.
  intros Hconn Hdb node. subst node.
  repeat split;
    [ unfold getFullAccounts | unfold getAccountBalances
    | unfold getLimitOrders ];
    run_executor; rewrite Hconn, Hdb; cbn;
    match goal with
    | |- context [db_exec ?e ?n ?m ?a] =>
        destruct (db_exec e n m a) as [err | [[|row rows] |]]
    end; reflexivity.
Qed.

Lemma filled_queries_outcome_witness :
  has_db_api (world up empty_db offline) = true
  /\ result (promise (getAccountBalances (world up empty_db offline)
                        "bitshares" "1.2.100" sample_app))
     = Some (Rejected (mkError "Account balances not found"))
  /\ closes (calls (promise (getLimitOrders (world up dead_db offline)
                               "bitshares" "1.2.100" 100 sample_app))) = 2.
Proof.
  pose proof (filled_queries_outcome (world up empty_db offline)
                "bitshares" "1.2.100" 100 sample_app eq_refl eq_refl) as H.
  pose proof (filled_queries_outcome (world up dead_db offline)
                "bitshares" "1.2.100" 100 sample_app eq_refl eq_refl) as H'.
  cbv zeta in H, H'. destruct H as (_ & Hb & _). destruct H' as (_ & _ & Hl).
  split; [reflexivity | split].
  - now rewrite Hb.
  - now rewrite Hl.
Defined.

(** X16: [getBlockedAccounts] resolves with whatever array the node
    answers, an empty one included; only a missing answer is rejected as
    not found, and a throwing call closes twice. *)
Theorem getBlockedAccounts_outcome (env : Env) (chain : string) (app : App) :
  connect env (getCurrentNode env chain app) = None ->
  has_db_api env = true ->
  let node := getCurrentNode env chain app in
  let call := EExec "get_accounts" [JArr [JStr "committee-blacklist-manager"]]
  in
  promise (getBlockedAccounts env chain app)
  = match db_exec env 0 "get_accounts"
            [JArr [JStr "committee-blacklist-manager"]] with
    | Throws e =>
        mkOutcome [EConnect node; call; ELog (message e); EClose; EClose]
          (Some (Rejected e))
    | Returns None =>
        mkOutcome [EConnect node; call; EClose]
          (Some (Rejected (mkError "Committee account details not found")))
    | Returns (Some rows) =>
        mkOutcome [EConnect node; call; EClose]
          (Some (Resolved (VValid (VJson (JArr rows)))))
    end.
Proof.
  intros Hconn Hdb node call. subst node call.
  unfold getBlockedAccounts. run_executor. rewrite Hconn, Hdb. cbn.
  destruct (db_exec env 0 "get_accounts"
              [JArr [JStr "committee-blacklist-manager"]]) as [e | [rows|]];
    reflexivity.
Qed.

Lemma getBlockedAccounts_outcome_witness :
  has_db_api (world up empty_db offline) = true
  /\ result (promise (getBlockedAccounts (world up empty_db offline)
                        "bitshares" sample_app))
     = Some (Resolved (VValid (VJson (JArr [])))).
Proof.
  pose proof (getBlockedAccounts_outcome (world up empty_db offline)
                "bitshares" sample_app eq_refl eq_refl) as H.
  cbv zeta in H. split; [reflexivity|]. now rewrite H.
Defined.

(** X17: once connected, [getPortfolio] calls [Apis.close()] between one
    and three times, and exactly once precisely when neither sub-query
    throws. *)
Theorem getPortfolio_closed_once_iff (env : Env) (chain accountID : string)
    (app : App) :
  connect env (getCurrentNode env chain app) = None ->
  has_db_api env = true ->
  let o := promise (getPortfolio env chain accountID app) in
  1 <= closes (calls o) <= 3
  /\ (closes (calls o) = 1 <->
      (forall e, db_exec env 0 "get_limit_orders_by_account"
                   [JStr accountID; JNum 100] <> Throws e)
      /\ (forall e, db_exec env 1 "get_account_balances"
                      [JStr accountID; JArr []] <> Throws e)).
Proof.
  intros Hconn Hdb o. subst o.
  rewrite (getPortfolio_closes env chain accountID app Hconn Hdb).
  destruct (db_exec env 0 "get_limit_orders_by_account"
              [JStr accountID; JNum 100]) as [e1|r1];
    destruct (db_exec env 1 "get_account_balances"
                [JStr accountID; JArr []]) as [e2|r2];
    cbn; (split; [lia|]); split;
    try (intros H; discriminate H);
    try (intros _; split; intros e; discriminate);
    try (intros [H1 H2]; exfalso;
         first [ now apply (H1 e1) | now apply (H2 e2) ]);
    try reflexivity.
Qed.

Lemma getPortfolio_closed_once_iff_witness :
  has_db_api (world up dead_db offline) = true
  /\ closes (calls (promise (getPortfolio (world up dead_db offline)
                               "bitshares" "1.2.100" sample_app))) <= 3
  /\ closes (calls (promise (getPortfolio (world up account_db offline)
                               "bitshares" "1.2.100" sample_app))) = 1.
Proof.
  pose proof (getPortfolio_closed_once_iff (world up dead_db offline)
                "bitshares" "1.2.100" sample_app eq_refl eq_refl) as H.
  pose proof (getPortfolio_closed_once_iff (world up account_db offline)
                "bitshares" "1.2.100" sample_app eq_refl eq_refl) as H'.
  cbv zeta in H, H'. destruct H as ((_ & Hle) & _). destruct H' as (_ & Hiff).
  split; [reflexivity | split; [exact Hle|]].
  apply Hiff. split; intros e; discriminate.
Defined.

Lemma fetchOrderBook_execs (env : Env) (chain base quote : string)
    (app : App) :
  connect env (getCurrentNode env chain app) = None ->
  execs (calls (promise (fetchOrderBook env chain base quote app)))
  = if has_db_api env
    then [("get_order_book", [JStr base; JStr quote; JNum 50])]
    else [].
Proof.
  intros Hconn. unfold fetchOrderBook. run_executor. rewrite Hconn. cbn.
  destruct (has_db_api env); [|reflexivity].
  destruct (db_exec env 0 "get_order_book" [JStr base; JStr quote; JNum 50])
    as [e | [rows|]]; reflexivity.
Qed.

(** X18: once connected, [fetchOrderBook] closes the session exactly once.
    On a node with a database API it sends one [get_order_book] request
    for 50 entries; a throwing call is only logged, so the caller is told
    "Couldn't retrieve orderbook" instead of the error.  On a node without
    one nothing is sent, the error of the property access is logged and
    the caller is told the same. *)
Theorem fetchOrderBook_outcome (env : Env) (chain base quote : string)
    (app : App) :
  connect env (getCurrentNode env chain app) = None ->
  let node := getCurrentNode env chain app in
  let call := EExec "get_order_book" [JStr base; JStr quote; JNum 50] in
  let o := promise (fetchOrderBook env chain base quote app) in
  closes (calls o) = 1
  /\ execs (calls o)
     = (if has_db_api env
        then [("get_order_book", [JStr base; JStr quote; JNum 50])]
        else [])
  /\ (has_db_api env = false ->
      exists msg,
        o = mkOutcome [EConnect node; ELog msg; EClose]
              (Some (Rejected (mkError "Couldn't retrieve orderbook"))))
  /\ (has_db_api env = true ->
      (forall e,
         db_exec env 0 "get_order_book" [JStr base; JStr quote; JNum 50]
         = Throws e ->
         o = mkOutcome [EConnect node; call; ELog (message e); EClose]
               (Some (Rejected (mkError "Couldn't retrieve orderbook"))))
      /\ (db_exec env 0 "get_order_book" [JStr base; JStr quote; JNum 50]
          = Returns None ->
          o = mkOutcome [EConnect node; call; EClose]
                (Some (Rejected (mkError "Couldn't retrieve orderbook"))))
      /\ (forall rows,
            db_exec env 0 "get_order_book" [JStr base; JStr quote; JNum 50]
            = Returns (Some rows) ->
            o = mkOutcome [EConnect node; call; EClose]
                  (Some (Resolved (VValid (VJson (JArr rows))))))).
Proof.
  intros Hconn node call o. subst node call o.
  unfold fetchOrderBook. run_executor. rewrite Hconn. cbn.
  destruct (has_db_api env); cbn.
  - destruct (db_exec env 0 "get_order_book"
                [JStr base; JStr quote; JNum 50]) as [e | [rows|]];
      cbn; repeat split; intros; try discriminate;
      match goal with
      | H : _ = _ |- _ => inversion H; subst; reflexivity
      end.
  - repeat split; intros; try discriminate. eauto.
Qed.

Lemma fetchOrderBook_outcome_witness :
  connect (world up dead_db offline)
    (getCurrentNode (world up dead_db offline) "bitshares" sample_app) = None
  /\ has_db_api (world up dead_db offline) = true
  /\ promise (fetchOrderBook (world up dead_db offline) "bitshares" "1.3.0"
                "1.3.121" sample_app)
     = mkOutcome
         [EConnect "wss://api.bts.mobi/ws";
          EExec "get_order_book" [JStr "1.3.0"; JStr "1.3.121"; JNum 50];
          ELog "timeout"; EClose]
         (Some (Rejected (mkError "Couldn't retrieve orderbook"))).
Proof.
  pose proof (fetchOrderBook_outcome (world up dead_db offline) "bitshares"
                "1.3.0" "1.3.121" sample_app eq_refl) as H.
  cbv zeta in H. destruct H as (_ & _ & _ & Hdb).
  destruct (Hdb eq_refl) as (Hthrows & _).
  split; [reflexivity | split; [reflexivity|]].
  exact (Hthrows (mkError "timeout") eq_refl).
Defined.

(** ** More on the account history *)

(** X19: when [fetch] throws, [getAccountHistory] rejects with that error
    (and logs it, then logs the generic message). *)
Theorem getAccountHistory_fetch_error_reaches_caller (env : Env)
    (chain accountID : string) (from size : option Number)
    (from_date to_date sort_by type agg_field : option string) (e : Error) :
  fetch env (history_url chain accountID from size from_date to_date sort_by
               type agg_field) = FetchThrows e ->
  let o := promise (getAccountHistory env chain accountID from size from_date
                      to_date sort_by type agg_field) in
  result o = Some (Rejected e)
  /\ logs (calls o) = [message e; "Couldn't fetch account history"].
Proof.
  intros Hfetch o. subst o.
  rewrite (getAccountHistory_fetch_throws env chain accountID from size
             from_date to_date sort_by type agg_field e Hfetch).
  split; reflexivity.
Qed.

Lemma getAccountHistory_fetch_error_reaches_caller_witness :
  fetch (world up empty_db offline)
    (history_url "bitshares" "1.2.100" None None None None None None None)
  = FetchThrows (mkError "fetch failed")
  /\ result (promise (getAccountHistory (world up empty_db offline)
                        "bitshares" "1.2.100" None None None None None None
                        None))
     = Some (Rejected (mkError "fetch failed")).
Proof.
  pose proof (getAccountHistory_fetch_error_reaches_caller
                (world up empty_db offline) "bitshares" "1.2.100"
                None None None None None None None (mkError "fetch failed")
                eq_refl) as H.
  cbv zeta in H. destruct H as (Hres & _).
  split; [reflexivity | exact Hres].
Defined.

(** X20: on an ok response [getAccountHistory] only fetches; it resolves
    with the document when that is truthy, rejects with "Account history
    not found" when it is falsy, and never settles when reading the body
    fails. *)
Theorem getAccountHistory_ok_response (env : Env)
    (chain accountID : string) (from size : option Number)
    (from_date to_date sort_by type agg_field : option string)
    (r : Response) :
  fetch env (history_url chain accountID from size from_date to_date sort_by
               type agg_field) = FetchReturns r ->
  ok r = true ->
  let url := history_url chain accountID from size from_date to_date sort_by
               type agg_field in
  let o := promise (getAccountHistory env chain accountID from size from_date
                      to_date sort_by type agg_field) in
  calls o = [EFetch url]
  /\ (forall doc, body_json r = inr doc -> truthy doc = true ->
        result o = Some (Resolved (VValid (VJson doc))))
  /\ (forall doc, body_json r = inr doc -> truthy doc = false ->
        result o = Some (Rejected (mkError "Account history not found")))
  /\ (forall e, body_json r = inl e -> result o = None).
Proof.
  intros Hfetch Hok url o. subst o. fold url in Hfetch.
  unfold getAccountHistory. fold url. clearbody url. run_executor.
  rewrite Hfetch. cbn. rewrite Hok. cbn.
  destruct (body_json r) as [e|doc]; cbn.
  - repeat split; intros; try discriminate; reflexivity.
  - destruct (truthy doc) eqn:Ht; cbn; repeat split; intros;
      try discriminate;
      match goal with
      | H : inr _ = inr _ |- _ => inversion H; subst
      end; try reflexivity; congruence.
Qed.

Lemma getAccountHistory_ok_response_witness :
  fetch (world up empty_db history_service)
    (history_url "bitshares_testnet" "1.2.100" None None None None None None
       None)
  = FetchReturns (mkResponse true "200" "OK" (inr history_doc))
  /\ calls (promise (getAccountHistory (world up empty_db history_service)
                       "bitshares_testnet" "1.2.100" None None None None None
                       None None))
     = [EFetch ("https://api.testnet.bitshares.ws/openexplorer/es/"
                  ++ "account_history?account_id=1.2.100&from_=0&size=100"
                  ++ "&from_date=2015-10-10&to_date=now"
                  ++ "&sort_by=-operation_id_num&type=data"
                  ++ "&agg_field=operation_type")%string]
  /\ result (promise (getAccountHistory (world up empty_db history_service)
                        "bitshares_testnet" "1.2.100" None None None None None
                        None None))
     = Some (Resolved (VValid (VJson history_doc))).
Proof.
  pose proof (getAccountHistory_ok_response (world up empty_db history_service)
                "bitshares_testnet" "1.2.100" None None None None None None
                None (mkResponse true "200" "OK" (inr history_doc))
                eq_refl eq_refl) as H.
  cbv zeta in H. destruct H as (Hcalls & Hdoc & _).
  split; [reflexivity | split; [exact Hcalls|]].
  exact (Hdoc history_doc eq_refl eq_refl).
Defined.

(** X21: [getAccountHistory] never touches a node: no connection, no
    database call, no close, no rotation; it sends exactly one GET, to the
    history URL. *)
Theorem getAccountHistory_leaves_nodes_alone (env : Env)
    (chain accountID : string) (from size : option Number)
    (from_date to_date sort_by type agg_field : option string) :
  let o := promise (getAccountHistory env chain accountID from size from_date
                      to_date sort_by type agg_field) in
  connects (calls o) = []
  /\ execs (calls o) = []
  /\ closes (calls o) = 0
  /\ rotations (calls o) = []
  /\ fetches (calls o)
     = [history_url chain accountID from size from_date to_date sort_by type
          agg_field].
Proof.
  intros o. subst o. unfold getAccountHistory.
  set (url := history_url chain accountID from size from_date to_date sort_by
                type agg_field).
  clearbody url. run_executor.
  destruct (fetch env url) as [e|r]; cbn; [repeat split|].
  destruct (ok r); cbn; [|repeat split].
  destruct (body_json r) as [e|doc]; cbn; [repeat split|].
  destruct (truthy doc); cbn; repeat split.
Qed.

(** ** The pool list script *)

Lemma pool_row_cases (pool : json) :
  pool_row pool
  = if readable_pool pool then inr (row_of pool)
    else inl (mkError "TypeError").
Proof.
  unfold pool_row, readable_pool, row_of, prop3, prop, sub, defined.
  destruct pool as [| | | | |fields]; try reflexivity.
  destruct (field "details" fields) as [[| | | | |details]|]; try reflexivity.
  destruct (field "asset_a" details) as [[]|];
    destruct (field "asset_b" details) as [[]|];
    destruct (field "share_asset" details) as [[]|]; reflexivity.
Qed.

Lemma map_rows_readable :
  forall pools,
    forallb readable_pool pools = true ->
    map_rows pools = inr (map row_of pools).
Proof.
  induction pools as [|pool rest IH]; intros H; simpl; [reflexivity|].
  simpl in H. apply andb_true_iff in H. destruct H as [Hp Hr].
  now rewrite pool_row_cases, Hp, (IH Hr).
Qed.

Lemma map_rows_unreadable :
  forall pools,
    forallb readable_pool pools = false ->
    map_rows pools = inl (mkError "TypeError").
Proof.
  induction pools as [|pool rest IH]; intros H; simpl in *; [discriminate|].
  rewrite pool_row_cases. destruct (readable_pool pool); [|reflexivity].
  simpl in H. now rewrite (IH H).
Qed.

(** X22: the callback of the pool script succeeds exactly on pools whose
    details name all three assets, and then builds the nine fields in
    their fixed order from the pool. *)
Theorem pool_row_reads (pool : json) :
  (forall row,
     pool_row pool = inr row
     <-> readable_pool pool = true /\ row = row_of pool)
  /\ (readable_pool pool = false -> exists e, pool_row pool = inl e)
  /\ map fst (row_of pool)
     = ["id"; "asset_a_id"; "asset_a_symbol"; "asset_b_id"; "asset_b_symbol";
        "share_asset_symbol"; "balance_a"; "balance_b"; "taker_fee_percent"].
Proof.
  rewrite pool_row_cases. repeat split.
  - destruct (readable_pool pool); [reflexivity | discriminate].
  - destruct (readable_pool pool); [congruence | discriminate].
  - intros [-> ->]. reflexivity.
  - intros ->. eauto.
Qed.

Lemma pool_row_reads_witness :
  readable_pool sample_pool = true
  /\ pool_row sample_pool = inr (row_of sample_pool)
  /\ stringified (row_of sample_pool)
     = [("id", JStr "1.19.0"); ("asset_a_id", JStr "1.3.0");
        ("asset_a_symbol", JStr "BTS"); ("asset_b_id", JStr "1.3.3291");
        ("asset_b_symbol", JStr "HONEST.USD");
        ("share_asset_symbol", JStr "POOL.0"); ("balance_a", JNum 100);
        ("balance_b", JNum 7); ("taker_fee_percent", JNum 30)]
  /\ exists e, pool_row bare_pool = inl e.
Proof.
  destruct (pool_row_reads sample_pool) as (Hiff & _ & _).
  destruct (pool_row_reads bare_pool) as (_ & Hbare & _).
  split; [reflexivity | split; [|split]].
  - apply Hiff. split; reflexivity.
  - reflexivity.
  - apply Hbare. reflexivity.
Defined.

(** X23: when the body is an array of readable pools the script writes the
    body to allPools.json and one row per pool, in order, to pools.json,
    the status of the response not being looked at; afterwards the
    callback of each write logs that the file was saved, or throws the
    write error. *)
Theorem pool_script_saves_both (http : string -> FetchResult)
    (disk : string -> option Error) (res : Response) (pools : list json) :
  http pools_url = FetchReturns res ->
  body_json res = inr (JArr pools) ->
  forallb readable_pool pools = true ->
  pool_script http disk
  = mkRun
      [SFetch pools_url;
       SWrite "./src/data/allPools.json" (JArr pools);
       SWrite "./src/data/pools.json"
         (JArr (map (fun pool => JObj (stringified (row_of pool))) pools))]
      [match disk "./src/data/allPools.json" with
       | Some err => Rethrown err
       | None => Saved "Pools data saved to allPools.json"
       end;
       match disk "./src/data/pools.json" with
       | Some err => Rethrown err
       | None => Saved "Pools data saved to pools.json"
       end].
Proof.
  intros Hhttp Hbody Hread. unfold pool_script, filteredPoolData.
  rewrite Hhttp, Hbody, (map_rows_readable pools Hread), map_map.
  reflexivity.
Qed.

Lemma pool_script_saves_both_witness :
  forallb readable_pool [sample_pool; sample_pool] = true
  /\ written (chain_events
                (pool_script
                   (fun _ => FetchReturns
                               (mkResponse false "503" "Service Unavailable"
                                  (inr (JArr [sample_pool; sample_pool]))))
                   (fun _ => None)))
     = ["./src/data/allPools.json"; "./src/data/pools.json"]
  /\ callbacks
       (pool_script
          (fun _ => FetchReturns
                      (mkResponse false "503" "Service Unavailable"
                         (inr (JArr [sample_pool; sample_pool]))))
          (fun _ => None))
     = [Saved "Pools data saved to allPools.json";
        Saved "Pools data saved to pools.json"].
Proof.
  split; [reflexivity|].
  rewrite (pool_script_saves_both _ (fun _ => None)
             (mkResponse false "503" "Service Unavailable"
                (inr (JArr [sample_pool; sample_pool])))
             [sample_pool; sample_pool] eq_refl eq_refl eq_refl).
  split; reflexivity.
Defined.

(** X24: when the body is not an array, or a pool cannot be read, the
    write of the body to allPools.json has already been started,
    pools.json is not written and the error is logged; the callback of the
    one write runs afterwards. *)
Theorem pool_script_unreadable_pool (http : string -> FetchResult)
    (disk : string -> option Error) (res : Response) (data : json) :
  http pools_url = FetchReturns res ->
  body_json res = inr data ->
  (forall pools, data = JArr pools -> forallb readable_pool pools = false) ->
  written (chain_events (pool_script http disk))
  = ["./src/data/allPools.json"]
  /\ exists msg,
       pool_script http disk
       = mkRun
           [SFetch pools_url; SWrite "./src/data/allPools.json" data;
            SLog msg]
           [match disk "./src/data/allPools.json" with
            | Some err => Rethrown err
            | None => Saved "Pools data saved to allPools.json"
            end].
Proof.
  intros Hhttp Hbody Hbad. unfold pool_script, filteredPoolData, script_catch.
  rewrite Hhttp, Hbody.
  destruct data as [| | | | pools |]; try (split; [reflexivity | eauto]).
  rewrite (map_rows_unreadable pools (Hbad pools eq_refl)).
  split; [reflexivity | eauto].
Qed.

Lemma pool_script_unreadable_pool_witness :
  forallb readable_pool [sample_pool; bare_pool] = false
  /\ written (chain_events
                (pool_script (pools_service (JArr [sample_pool; bare_pool]))
                   (fun _ => None)))
     = ["./src/data/allPools.json"].
Proof.
  split; [reflexivity|].
  refine (proj1 (pool_script_unreadable_pool
                   (pools_service (JArr [sample_pool; bare_pool]))
                   (fun _ => None)
                   (mkResponse true "200" "OK"
                      (inr (JArr [sample_pool; bare_pool])))
                   (JArr [sample_pool; bare_pool]) eq_refl eq_refl _)).
  intros pools H. inversion H. reflexivity.
Defined.

(** X25: when the request or the reading of its body fails the script
    writes nothing and logs the error. *)
Theorem pool_script_no_document (http : string -> FetchResult)
    (disk : string -> option Error) :
  (exists e, http pools_url = FetchThrows e)
  \/ (exists res e, http pools_url = FetchReturns res /\ body_json res = inl e)
  ->
  written (chain_events (pool_script http disk)) = []
  /\ exists msg, pool_script http disk = mkRun [SFetch pools_url; SLog msg] [].
Proof.
  intros [[e H] | (res & e & H & Hb)]; unfold pool_script, script_catch;
    rewrite H; [|rewrite Hb]; split; try reflexivity; eauto.
Qed.

Lemma pool_script_no_document_witness :
  offline pools_url = FetchThrows (mkError "fetch failed")
  /\ written (chain_events (pool_script offline (fun _ => None))) = [].
Proof.
  split; [reflexivity|].
  exact (proj1 (pool_script_no_document offline (fun _ => None)
                  (or_introl (ex_intro _ (mkError "fetch failed") eq_refl)))).
Defined.

(** ** From a route to the node *)

Lemma two_chains_pass (c : string) :
  two_chains (Some c) ->
  String.eqb c "" = false
  /\ isnt (Some c) "bitshares" && isnt (Some c) "bitshares_testnet" = false.
Proof. intros [E|E]; inversion E; split; reflexivity. Qed.

(** X26: on the eight routes that return the promise of their entry point
    as it is, a request whose chain is neither literal is rejected with
    nothing sent: no connection, no request, no fetch. *)
Theorem serve_invalid_chain_sends_nothing (env : Env)
    (JSON_parse : string -> option json) (app : App) (r : Route)
    (req : Request) :
  returns_promise r = true ->
  ~ two_chains (chain req) ->
  exists e,
    serve env JSON_parse app r req = Some (mkOutcome [] (Some (Rejected e))).
Proof.
  intros Hr Hnot. destruct (not_two_chains _ Hnot) as [H1 H2].
  unfold serve. rewrite Hr.
  destruct r; try discriminate;
    unfold handler, guarded, invalid_chain, missing_fields;
    rewrite ?H1, ?H2; cbn [andb orb negb];
    split_guards; eauto.
Qed.

Lemma serve_invalid_chain_sends_nothing_witness :
  returns_promise ApiGetPortfolio = true
  /\ exists e,
       serve (world up account_db offline) sample_parse sample_app
         ApiGetPortfolio (full_request "steem" "[]")
       = Some (mkOutcome [] (Some (Rejected e))).
Proof.
  assert (Hnot : ~ two_chains (chain (full_request "steem" "[]")))
    by (intros [E|E]; discriminate).
  split; [reflexivity|].
  exact (serve_invalid_chain_sends_nothing (world up account_db offline)
           sample_parse sample_app ApiGetPortfolio
           (full_request "steem" "[]") eq_refl Hnot).
Defined.

(** X27: on a node with a database API, a valid request to
    /api/orderBook/:chain/:quote/:base reaches the node as one
    [get_order_book] call whose first argument is the quote parameter and
    whose second is the base parameter, for 50 entries. *)
Theorem orderBook_route_argument_order (env : Env)
    (JSON_parse : string -> option json) (app : App) (req : Request)
    (c q b : string) :
  chain req = Some c -> two_chains (Some c) ->
  quote req = Some q -> q <> "" ->
  base req = Some b -> b <> "" ->
  connect env (getCurrentNode env c app) = None ->
  has_db_api env = true ->
  exists o,
    serve env JSON_parse app ApiOrderBook req = Some o
    /\ execs (calls o) = [("get_order_book", [JStr q; JStr b; JNum 50])].
Proof.
  intros Hc Htwo Hq Hqne Hb Hbne Hconn Hdb.
  apply String.eqb_neq in Hqne. apply String.eqb_neq in Hbne.
  destruct (two_chains_pass c Htwo) as [Hcne Hok].
  unfold serve, handler, guarded. cbn [returns_promise].
  rewrite Hc, Hq, Hb. cbn [missing]. rewrite Hcne, Hqne, Hbne, Hok.
  cbn [orb arg].
  change (entry env app "fetchOrderBook" [JStr c; JStr q; JStr b])
    with (Some (fetchOrderBook env c q b app)).
  eexists. split; [reflexivity|].
  now rewrite (fetchOrderBook_execs env c q b app Hconn), Hdb.
Qed.

Lemma orderBook_route_argument_order_witness :
  two_chains (Some "bitshares")
  /\ has_db_api (world up account_db offline) = true
  /\ exists o,
       serve (world up account_db offline) sample_parse sample_app
         ApiOrderBook (full_request "bitshares" "[]") = Some o
       /\ execs (calls o)
          = [("get_order_book", [JStr "1.3.0"; JStr "1.3.1"; JNum 50])].
Proof.
  assert (Htwo : two_chains (Some "bitshares")) by (left; reflexivity).
  split; [exact Htwo | split; [reflexivity|]].
  apply (orderBook_route_argument_order (world up account_db offline)
           sample_parse sample_app (full_request "bitshares" "[]")
           "bitshares" "1.3.0" "1.3.1" eq_refl Htwo eq_refl);
    try reflexivity; discriminate.
Defined.

(** ** More on the guards *)

(** X28: the deeplink route looks at the body before the chain: a missing
    or empty body and a body that parses to a falsy value are refused as
    missing fields, and a body that does not parse throws the syntax error,
    whatever the chain is. *)
Theorem deeplink_route_checks_body_first
    (JSON_parse : string -> option json) (req : Request) :
  (no_body (body req) = true ->
   handler JSON_parse ApiDeeplink req = missing_fields)
  /\ (forall s, body req = Some (BString s) -> s <> "" ->
        JSON_parse s = None ->
        handler JSON_parse ApiDeeplink req = Refused (mkError "SyntaxError"))
  /\ (forall s j, body req = Some (BString s) -> s <> "" ->
        JSON_parse s = Some j -> truthy j = false ->
        handler JSON_parse ApiDeeplink req = missing_fields).
Proof.
  unfold handler, parse, guarded. repeat split.
  - intros ->. reflexivity.
  - intros s Hb Hs Hp. apply String.eqb_neq in Hs. rewrite Hb. cbn.
    now rewrite Hs, Hp.
  - intros s j Hb Hs Hp Ht. apply String.eqb_neq in Hs. rewrite Hb. cbn.
    now rewrite Hs, Hp, Ht.
Qed.

Lemma deeplink_route_checks_body_first_witness :
  handler sample_parse ApiDeeplink (full_request "bitshares" "null")
  = Refused (mkError "Missing required fields")
  /\ handler sample_parse ApiDeeplink (full_request "bitshares" "{")
     = Refused (mkError "SyntaxError").
Proof.
  destruct (deeplink_route_checks_body_first sample_parse
              (full_request "bitshares" "null")) as (_ & _ & Hfalsy).
  destruct (deeplink_route_checks_body_first sample_parse
              (full_request "bitshares" "{")) as (_ & Hsyntax & _).
  split.
  - apply (Hfalsy "null" JNull); try reflexivity. discriminate.
  - apply (Hsyntax "{"); try reflexivity. discriminate.
Defined.

(** X29: the market history route tests the asset IDs before the chain:
    with all four parameters present, an asset ID without "1.3." is
    refused as "Invalid asset IDs" also when the chain is invalid. *)
Theorem marketHistory_route_checks_assets_before_chain
    (JSON_parse : string -> option json) (req : Request) :
  missing (chain req) = false -> missing (base req) = false ->
  missing (quote req) = false -> missing (accountID req) = false ->
  includes (base req) "1.3." = false \/ includes (quote req) "1.3." = false ->
  handler JSON_parse ApiGetMarketHistory req
  = Refused (mkError "Invalid asset IDs").
Proof.
  intros Hc Hb Hq Ha Hinc. unfold handler. rewrite Hc, Hb, Hq, Ha. cbn.
  destruct Hinc as [-> | ->]; cbn; [reflexivity|].
  now rewrite orb_true_r.
Qed.

Lemma marketHistory_route_checks_assets_before_chain_witness :
  includes (Some "BTS") "1.3." = false
  /\ handler sample_parse ApiGetMarketHistory
       (mkReq (Some "steem") None None (Some "1.3.0") (Some "BTS") None
          (Some "1.2.100") None None)
     = Refused (mkError "Invalid asset IDs").
Proof.
  split; [reflexivity|].
  apply marketHistory_route_checks_assets_before_chain;
    try reflexivity. left. reflexivity.
Defined.

(** X30: an invalid chain is reported as "Missing required fields" by the
    cache routes pool, dynamic, asset, feeSchedule and marketSearch, and as
    "Invalid chain" by currentNodes, blockedAccounts, allassets and
    offers, whatever the other parameters are. *)
Theorem invalid_chain_message (JSON_parse : string -> option json)
    (r : Route) (req : Request) :
  ~ two_chains (chain req) ->
  (In r [CachePool; CacheDynamic; CacheAsset; CacheFeeSchedule;
         CacheMarketSearch] ->
   handler JSON_parse r req = missing_fields)
  /\ (In r [StateCurrentNodes; ApiBlockedAccounts; CacheAllAssets;
            CacheOffers] ->
      handler JSON_parse r req = invalid_chain).
Proof.
  intros Hnot. destruct (not_two_chains _ Hnot) as [H1 H2].
  split; intros Hin; simpl in Hin;
    repeat (destruct Hin as [<- | Hin]); try contradiction;
    unfold handler, guarded, guarded_fields; rewrite ?H1, ?H2;
    cbn [andb orb negb];
    rewrite ?orb_true_r, ?andb_true_r, ?orb_negb_r; reflexivity.
Qed.

Lemma invalid_chain_message_witness :
  ~ two_chains (Some "steem")
  /\ handler sample_parse CacheFeeSchedule (full_request "steem" "[]")
     = Refused (mkError "Missing required fields")
  /\ handler sample_parse CacheOffers (full_request "steem" "[]")
     = Refused (mkError "Invalid chain").
Proof.
  assert (Hnot : ~ two_chains (chain (full_request "steem" "[]")))
    by (intros [E|E]; discriminate).
  destruct (invalid_chain_message sample_parse CacheFeeSchedule
              (full_request "steem" "[]") Hnot) as (Hm & _).
  destruct (invalid_chain_message sample_parse CacheOffers
              (full_request "steem" "[]") Hnot) as (_ & Hi).
  split; [exact Hnot | split].
  - apply Hm. simpl. tauto.
  - apply Hi. simpl. tauto.
Defined.
